(** * merge_benchmarks.py: the merge of three benchmark collections

    A shallow embedding of [src/merge_benchmarks.py] and the properties of
    its loader, its merge step and its category tally.

    Conventions of the model.
    - A parsed JSON document is a value of [json].  JSON numbers are the
      integers ([Z]); fractional numbers are not part of the model.
    - A Python [dict] obtained from a JSON object is the list of its items
      in insertion order ([JObj]); indexing finds the item by its key.
    - A Python [set] and the keys of a Python [dict] compare their elements
      with [==] after hashing them: [hashable] says which values can be
      hashed and [atom_key] gives the class of a value under [==]
      ([True == 1] and [False == 0] in Python).
    - [print] appends one entry to the list of printed texts; an uncaught
      exception ends the run and keeps what was printed before it.
    - The three loaded documents are JSON arrays, taken as the lists of
      their elements; an element may be any value.  Of [merge_benchmarks]
      the first part of the development has the merge (lines 28-48) and
      the tally (lines 53-56); the script from its first line to its last,
      over documents of any kind, comes after it. *)

From stdpp Require Import base option list sets gmap strings pretty.
From stdpp Require Import sorting.

#[local] Set Warnings "-clear-no-such-hyp".

(** ** Values *)

#[warnings="-register-all"]
Inductive json : Type :=
  | JNull
  | JBool (b : bool)
  | JNum (z : Z)
  | JStr (s : string)
  | JArr (l : list json)
  | JObj (items : list (string * json)).

(** The values of a parsed document that Python can hash. *)
Inductive atom : Type :=
  | ANone
  | ABool (b : bool)
  | AInt (z : Z)
  | AStr (s : string).

(** The classes of hashable values under Python's [==]. *)
Inductive pykey : Type :=
  | KNone
  | KInt (z : Z)
  | KStr (s : string).

Global Instance atom_eq_dec : EqDecision atom.
Proof. solve_decision. Defined.

Global Instance pykey_eq_dec : EqDecision pykey.
Proof. solve_decision. Defined.

Definition pykey_encode (k : pykey) : unit + (Z + string) :=
  match k with
  | KNone => inl tt
  | KInt z => inr (inl z)
  | KStr s => inr (inr s)
  end.

Definition pykey_decode (x : unit + (Z + string)) : pykey :=
  match x with
  | inl _ => KNone
  | inr (inl z) => KInt z
  | inr (inr s) => KStr s
  end.

Global Instance pykey_countable : Countable pykey.
Proof.
  apply (inj_countable' pykey_encode pykey_decode).
  by intros [].
Defined.

Definition atom_key (a : atom) : pykey :=
  match a with
  | ANone => KNone
  | ABool b => KInt (if b then 1 else 0)
  | AInt z => KInt z
  | AStr s => KStr s
  end.

(** [str(x)], as an f-string formats a hashable value. *)
Definition py_str (a : atom) : string :=
  match a with
  | ANone => "None"
  | ABool b => if b then "True" else "False"
  | AInt z => pretty z
  | AStr s => s
  end.

(** ** Exceptions and the run monad *)

Inductive exn_class : Type :=
  | FileNotFoundError
  | PermissionError
  | IsADirectoryError
  | OSError
  | UnicodeDecodeError
  | JSONDecodeError
  | RecursionError
  | MemoryError
  | KeyError
  | TypeError
  | AttributeError
  | KeyboardInterrupt
  | SystemExit.

(** [isinstance(e, Exception)]: the last two classes derive from
    [BaseException] only. *)
Definition is_Exception (c : exn_class) : bool :=
  match c with
  | KeyboardInterrupt | SystemExit => false
  | _ => true
  end.

(** An exception as a handler sees it: its class and [str(e)]. *)
Record exn : Type := Exn { exn_class_of : exn_class; exn_str : string }.

(** How a run ends: with a value, or with an uncaught exception, which is
    observed by its class. *)
Inductive result (A : Type) : Type :=
  | Ok (a : A)
  | Raise (c : exn_class).
Arguments Ok {A} a.
Arguments Raise {A} c.

(** A run: what it printed, and how it ended. *)
Definition run (A : Type) : Type := list string * result A.

Definition raise {A} (c : exn_class) : run A := ([], Raise c).
Definition print (s : string) : run unit := ([s], Ok tt).

Global Instance run_ret : MRet run := λ A a, ([], Ok a).

Global Instance run_bind : MBind run := λ A B f m,
  match m with
  | (out, Ok a) => let '(out', r) := f a in (out ++ out', r)
  | (out, Raise c) => (out, Raise c)
  end.

Definition stdout {A} (m : run A) : list string := m.1.
Definition outcome {A} (m : run A) : result A := m.2.

(** [for x in l: st = body st x], stopping at the first exception. *)
Fixpoint for_each {S A} (body : S → A → run S) (st : S) (l : list A) : run S :=
  match l with
  | [] => mret st
  | x :: l' => st' ← body st x; for_each body st' l'
  end.

(** ** Python primitives used by the script *)

Fixpoint dict_get (items : list (string * json)) (k : string) : option json :=
  match items with
  | [] => None
  | (k', v) :: items' => if decide (k' = k) then Some v else dict_get items' k
  end.

(** [b[k]]: only a [dict] can be indexed by a string, and the key must be
    one of its keys. *)
Definition getitem (b : json) (k : string) : run json :=
  match b with
  | JObj items =>
      match dict_get items k with
      | Some v => mret v
      | None => raise KeyError
      end
  | _ => raise TypeError
  end.

(** [b.get(k, default)]: a method of [dict] only. *)
Definition get_default (b : json) (k : string) (dflt : json) : run json :=
  match b with
  | JObj items => mret (default dflt (dict_get items k))
  | _ => raise AttributeError
  end.

(** Hashing a value, as membership in a [set] and the keys of a [dict]
    require: a [list] or a [dict] is unhashable. *)
Definition hashable (v : json) : run atom :=
  match v with
  | JNull => mret ANone
  | JBool b => mret (ABool b)
  | JNum z => mret (AInt z)
  | JStr s => mret (AStr s)
  | JArr _ | JObj _ => raise TypeError
  end.

(** ** The loader (lines 5-12) *)

(** What the script reads: for a file name, [fs_open] is the outcome of
    opening the file and reading its text, [json_loads] the outcome of
    parsing a text.  Each one either gives its value or raises. *)
Record world : Type := World {
  fs_open : string → exn + string;
  json_loads : string → exn + json
}.

(** Lines 8-9: [with open(filename, ...) as f: return json.load(f)]. *)
Definition open_and_load (w : world) (filename : string) : exn + json :=
  match fs_open w filename with
  | inl e => inl e
  | inr text => json_loads w text
  end.

Definition error_loading (filename : string) (e : exn) : string :=
  "Error loading " +:+ filename +:+ ": " +:+ exn_str e.

Definition load_json_file (w : world) (filename : string) : run json :=
  match open_and_load w filename with
  | inr doc => mret doc
  | inl e =>
      if is_Exception (exn_class_of e) then
        print (error_loading filename e);;
        mret (JArr [])
      else raise (exn_class_of e)
  end.

(** ** The merge step (lines 28-48) *)

Record merge_state : Type := MergeState {
  all_benchmarks : list json;
  existing_ids : gset pykey
}.

(** [benchmark['id']], hashed as the set needs it. *)
Definition benchmark_id (benchmark : json) : run atom :=
  v ← getitem benchmark "id";
  hashable v.

(** Line 34: [{b['id'] for b in all_benchmarks}]. *)
Definition collect_ids (benchmarks : list json) : run (gset pykey) :=
  for_each (λ ids b, a ← benchmark_id b; mret ({[atom_key a]} ∪ ids))
           ∅ benchmarks.

Definition skipped_line (a : atom) : string :=
  "  - Skipped duplicate ID: " +:+ py_str a.

(** The body of both loops (lines 36-40 and 44-48). *)
Definition add_benchmark (st : merge_state) (benchmark : json)
    : run merge_state :=
  a ← benchmark_id benchmark;
  if decide (atom_key a ∈ existing_ids st) then
    print (skipped_line a);;
    mret st
  else
    mret {| all_benchmarks := all_benchmarks st ++ [benchmark];
           existing_ids := {[atom_key a]} ∪ existing_ids st |}.

Definition merge_step (current new_bench new_bench1 : list json)
    : run merge_state :=
  let all_benchmarks0 := [] ++ current in
  existing_ids0 ← collect_ids all_benchmarks0;
  st ← for_each add_benchmark
         {| all_benchmarks := all_benchmarks0; existing_ids := existing_ids0 |}
         new_bench;
  for_each add_benchmark st new_bench1.

(** The merged dataset: [all_benchmarks] after the two loops. *)
Definition merged (current new_bench new_bench1 : list json)
    : run (list json) :=
  st ← merge_step current new_bench new_bench1;
  mret (all_benchmarks st).

(** ** The category tally (lines 53-56) *)

Definition count_category (categories : gmap pykey nat) (b : json)
    : run (gmap pykey nat) :=
  cat ← get_default b "category" (JStr "unknown");
  a ← hashable cat;
  mret (<[atom_key a := default 0 (categories !! atom_key a) + 1]> categories).

Definition count_categories (benchmarks : list json) : run (gmap pykey nat) :=
  for_each count_category ∅ benchmarks.

(** ** Vocabulary of the properties *)

(** The record is a [dict] with an ['id'] item. *)
Definition has_id_field (b : json) : Prop :=
  match b with
  | JObj items => is_Some (dict_get items "id")
  | _ => False
  end.

(** The id of a record as the merge sees it: [None] when
    [benchmark['id']] or its hashing raises. *)
Definition id_of (b : json) : option atom :=
  match outcome (benchmark_id b) with
  | Ok a => Some a
  | Raise _ => None
  end.

Definition key_of (b : json) : option pykey := atom_key <$> id_of b.

(** A record the merge can process: a [dict] whose ['id'] is hashable. *)
Definition well_formed (b : json) : Prop := is_Some (id_of b).

(** Every record of the three collections can be processed. *)
Definition well_formed_inputs (current new_bench new_bench1 : list json)
    : Prop :=
  Forall well_formed current ∧ Forall well_formed new_bench ∧
  Forall well_formed new_bench1.

Global Instance well_formed_dec b : Decision (well_formed b).
Proof. unfold well_formed. apply _. Defined.

Global Instance well_formed_inputs_dec current new_bench new_bench1 :
  Decision (well_formed_inputs current new_bench new_bench1).
Proof. unfold well_formed_inputs. apply _. Defined.

(** The ids of a collection, as a set. *)
Definition ids_of (l : list json) : gset pykey := list_to_set (omap key_of l).

(** The ids of a collection, one per record, in order. *)
Definition id_list (l : list json) : list pykey := omap key_of l.

Definition seen_in (seen : gset pykey) (b : json) : Prop :=
  match key_of b with
  | Some k => k ∈ seen
  | None => False
  end.

Global Instance seen_in_dec seen b : Decision (seen_in seen b).
Proof. unfold seen_in. destruct (key_of b); apply _. Defined.

Definition has_key (k : pykey) (b : json) : Prop := key_of b = Some k.

Global Instance has_key_dec k b : Decision (has_key k b).
Proof. unfold has_key. apply _. Defined.

(** The elements of [l] whose position and value satisfy [Q], in order. *)
Definition select_at {A} (Q : nat → A → Prop) `{∀ i x, Decision (Q i x)}
    (l : list A) : list A :=
  (filter (λ p, Q p.1 p.2) (imap (λ i x, (i, x)) l)).*2.

(** The seen set at the turn of the [i]-th record of [l], when the loop over
    [l] starts with [seen]: the ids of the records before it are added. *)
Definition seen_at_turn (seen : gset pykey) (l : list json) (i : nat)
    : gset pykey :=
  seen ∪ ids_of (take i l).

(** The records of [l] whose id is not in the seen set at their turn. *)
Definition new_records (seen : gset pykey) (l : list json) : list json :=
  select_at (λ i b, ¬ seen_in (seen_at_turn seen l i) b) l.

(** The records of [l] whose id is in the seen set at their turn. *)
Definition duplicate_records (seen : gset pykey) (l : list json) : list json :=
  select_at (λ i b, seen_in (seen_at_turn seen l i) b) l.

(** One notice per record, naming its id. *)
Definition notices (l : list json) : list string :=
  omap (λ b, skipped_line <$> id_of b) l.

(** The text by which a notice names an id: a string id as it is, a number
    by its decimal digits, [null] as [None] and the booleans as [True] and
    [False]. *)
Definition id_text (v : json) : option string :=
  match v with
  | JNull => Some "None"
  | JBool true => Some "True"
  | JBool false => Some "False"
  | JNum z => Some (pretty z)
  | JStr s => Some s
  | JArr _ | JObj _ => None
  end.

(** The notice that names the id of a record: the fixed prefix and the
    text of the value of its ['id'] item. *)
Definition notice_of (r : json) : option string :=
  match r with
  | JObj items =>
      match dict_get items "id" with
      | Some v =>
          (λ text, "  - Skipped duplicate ID: " +:+ text) <$> id_text v
      | None => None
      end
  | _ => None
  end.

(** The records the loops get through: all of them, or those before the
    first one on which [benchmark['id']] or its hashing raises. *)
Fixpoint processed (l : list json) : list json :=
  match l with
  | [] => []
  | b :: l' => if decide (well_formed b) then b :: processed l' else []
  end.

(** The first record of [l] with id [k]. *)
Definition first_with_id (k : pykey) (l : list json) : option json :=
  snd <$> list_find (has_key k) l.

(** The copy of id [k] in the collection of highest precedence that has
    one: the first copy there. *)
Definition preferred_copy (k : pykey) (current new_bench new_bench1 : list json)
    : option json :=
  match first_with_id k current with
  | Some r => Some r
  | None =>
      match first_with_id k new_bench with
      | Some r => Some r
      | None => first_with_id k new_bench1
      end
  end.

(** The id [k] is the id of records of more than one collection. *)
Definition in_several (k : pykey) (current new_bench new_bench1 : list json)
    : Prop :=
  (k ∈ ids_of current ∧ k ∈ ids_of new_bench) ∨
  (k ∈ ids_of current ∧ k ∈ ids_of new_bench1) ∨
  (k ∈ ids_of new_bench ∧ k ∈ ids_of new_bench1).

(** The category of a record as the tally sees it: [None] when
    [b.get('category', 'unknown')] or its hashing raises. *)
Definition category_of (b : json) : option pykey :=
  match outcome (cat ← get_default b "category" (JStr "unknown"); hashable cat) with
  | Ok a => Some (atom_key a)
  | Raise _ => None
  end.

Definition has_category (k : pykey) (b : json) : Prop := category_of b = Some k.

Global Instance has_category_dec k b : Decision (has_category k b).
Proof. unfold has_category. apply _. Defined.

(** A record the tally can count: a [dict] whose category can be hashed. *)
Definition tallyable (b : json) : Prop := is_Some (category_of b).

Global Instance tallyable_dec b : Decision (tallyable b).
Proof. unfold tallyable. apply _. Defined.

(** [sum(categories.values())]. *)
Definition total_count (categories : gmap pykey nat) : nat :=
  map_fold (λ _ n acc, n + acc) 0 categories.

(** The record is a [dict] whose ['id'] item is [None], a boolean, a number
    or a string. *)
Definition has_hashable_id (b : json) : Prop :=
  match b with
  | JObj items =>
      match dict_get items "id" with
      | Some (JNull | JBool _ | JNum _ | JStr _) => True
      | _ => False
      end
  | _ => False
  end.

Global Instance has_hashable_id_dec b : Decision (has_hashable_id b).
Proof.
  unfold has_hashable_id. destruct b as [| | | | |items]; try apply _.
  destruct (dict_get items "id") as [[]|]; apply _.
Defined.

(** The state of the merge when [n] records of the two supplemental
    collections have had their turn. *)
Definition state_after (current new_bench new_bench1 : list json) (n : nat)
    : run merge_state :=
  let all_benchmarks0 := [] ++ current in
  existing_ids0 ← collect_ids all_benchmarks0;
  for_each add_benchmark
    {| all_benchmarks := all_benchmarks0; existing_ids := existing_ids0 |}
    (take n (new_bench ++ new_bench1)).

(** The records of the supplemental collections skipped as duplicates, in
    the order of their turns. *)
Definition skipped_records (current new_bench new_bench1 : list json)
    : list json :=
  if decide (Forall well_formed current) then
    duplicate_records (ids_of current) (processed (new_bench ++ new_bench1))
  else [].

(** ** The example of the specification *)

Definition example_record (i : Z) (c : string) : json :=
  JObj [("id", JNum i); ("category", JStr c)].

Definition example_current : list json := [example_record 1 "x"].

Definition example_new_bench : list json :=
  [example_record 1 "y"; example_record 2 "x"].

Definition example_new_bench1 : list json :=
  [example_record 2 "z"; example_record 3 "x"].

(** What the merge of [example_current] and [example_new_bench] prints and
    returns. *)
Definition example_run : run (list json) :=
  (["  - Skipped duplicate ID: 1"],
   Ok [example_record 1 "x"; example_record 2 "x"]).

(** ** Inputs with records that share an id *)

Definition versioned (i : Z) (v : string) : json :=
  JObj [("id", JNum i); ("v", JStr v)].

(** [current] holds the id 1 twice, [new_bench] once more. *)
Definition twice_current : list json := [versioned 1 "a"; versioned 1 "b"].
Definition once_new_bench : list json := [versioned 1 "c"].

(** [new_bench] holds the id 1 twice. *)
Definition twice_new_bench : list json := [versioned 1 "a"; versioned 1 "b"].

(** A record whose ['id'] is a list. *)
Definition list_id_record : json := JObj [("id", JArr [JNum 1])].

(** The classes of the failures of reading and parsing a file: a missing
    file, an I/O error, text that is not UTF-8 or not JSON. *)
Definition load_failures : list exn_class :=
  [FileNotFoundError; PermissionError; IsADirectoryError; OSError;
   UnicodeDecodeError; JSONDecodeError].

(** A world with one file, which holds an empty array. *)
Definition example_world : world := {|
  fs_open name :=
    if decide (name = "data/benchmarks.json") then inr "[]"
    else inl (Exn FileNotFoundError
                ("[Errno 2] No such file or directory: '" +:+ name +:+ "'"));
  json_loads text :=
    if decide (text = "[]") then inr (JArr [])
    else inl (Exn JSONDecodeError "Expecting value: line 1 column 1 (char 0)")
|}.

(** A world with three files: the first holds an array of two numbers, the
    second a text that is cut short, the third cannot be read. *)
Definition shelf_world : world := {|
  fs_open name :=
    if decide (name = "data/benchmarks.json") then inr "[1, 2]"
    else if decide (name = "data/new_bench.json") then inr "[1, 2"
    else if decide (name = "data/new_bench1.json") then
      inl (Exn PermissionError
             "[Errno 13] Permission denied: 'data/new_bench1.json'")
    else inl (Exn FileNotFoundError
                ("[Errno 2] No such file or directory: '" +:+ name +:+ "'"));
  json_loads text :=
    if decide (text = "[1, 2]") then inr (JArr [JNum 1; JNum 2])
    else if decide (text = "[1, 2") then
      inl (Exn JSONDecodeError
             "Expecting ',' delimiter: line 1 column 6 (char 5)")
    else inl (Exn JSONDecodeError "Expecting value: line 1 column 1 (char 0)")
|}.

(** Collections where the id ["q-1"] is the id of a record of each of the
    three, and the id 7 that of a record of the first two. *)
Definition named_record (s : string) (v : string) : json :=
  JObj [("id", JStr s); ("v", JStr v)].

Definition shared_current : list json := [named_record "q-1" "a"; versioned 7 "a"].
Definition shared_new_bench : list json := [named_record "q-1" "b"; versioned 7 "b"].
Definition shared_new_bench1 : list json := [named_record "q-1" "c"].

(** ** Statements that the code does not satisfy as they are worded *)

(** Exactly one record of an id found in several collections survives, the
    copy of highest precedence. *)
Definition one_survivor_per_shared_id (current new_bench new_bench1 : list json)
    : Prop :=
  ∀ out k,
    outcome (merged current new_bench new_bench1) = Ok out →
    in_several k current new_bench new_bench1 →
    ∃ r, filter (has_key k) out = [r] ∧
         preferred_copy k current new_bench new_bench1 = Some r.

(** Two records of one collection that share an id are both retained,
    whichever the collection. *)
Definition duplicates_within_retained (current new_bench new_bench1 : list json)
    : Prop :=
  ∀ out l i j r r' k,
    outcome (merged current new_bench new_bench1) = Ok out →
    l ∈ [current; new_bench; new_bench1] →
    i < j → l !! i = Some r → l !! j = Some r' →
    has_key k r → has_key k r' →
    r ∈ out ∧ r' ∈ out.

(** A record without the ['id'] field makes the merge raise, and the merge
    ends normally when every record has the field. *)
Definition faults_iff_id_missing (current new_bench new_bench1 : list json)
    : Prop :=
  ((∃ b, b ∈ current ++ new_bench ++ new_bench1 ∧ ¬ has_id_field b) →
   ∃ c, outcome (merge_step current new_bench new_bench1) = Raise c) ∧
  (Forall has_id_field (current ++ new_bench ++ new_bench1) →
   ∃ st, outcome (merge_step current new_bench new_bench1) = Ok st).

(** The id of each record skipped as a duplicate is named by exactly one of
    the texts printed. *)
Definition one_notice_per_skipped_id (current new_bench new_bench1 : list json)
    : Prop :=
  ∀ r line,
    r ∈ skipped_records current new_bench new_bench1 →
    notice_of r = Some line →
    length (filter (λ text, text = line)
              (stdout (merge_step current new_bench new_bench1))) = 1.

(** ** The merge step over hash tables

    A Python [set] keeps its elements in a table laid out by their hashes,
    and the hash of a string differs from one process to the next.  Here
    the set is the list of its elements in the order of its table; adding
    an element may lead to any table that holds the right elements.  The
    relations below are lines 34-48 over such tables. *)

Definition table_add (t : list pykey) (k : pykey) (t' : list pykey) : Prop :=
  ∀ x, x ∈ t' ↔ x = k ∨ x ∈ t.

(** The table [t] holds the elements of the set [ids]. *)
Definition table_of (t : list pykey) (ids : gset pykey) : Prop :=
  ∀ x, x ∈ t ↔ x ∈ ids.

(** What a run over tables shows of its end. *)
Definition shown (r : result (list json * list pykey)) : result (list json) :=
  match r with
  | Ok (all, _) => Ok all
  | Raise c => Raise c
  end.

(** Line 34. *)
Inductive collects : list pykey → list json → result (list pykey) → Prop :=
  | collects_nil t :
      collects t [] (Ok t)
  | collects_cons t b l a t' r :
      benchmark_id b = mret a →
      table_add t (atom_key a) t' →
      collects t' l r →
      collects t (b :: l) r
  | collects_raise t b l c :
      benchmark_id b = raise c →
      collects t (b :: l) (Raise c).

(** Lines 35-40 and 43-48. *)
Inductive loops :
    list json → list pykey → list json → run (list json * list pykey) → Prop :=
  | loops_nil all t :
      loops all t [] ([], Ok (all, t))
  | loops_raise all t b l c :
      benchmark_id b = raise c →
      loops all t (b :: l) ([], Raise c)
  | loops_skip all t b l a out r :
      benchmark_id b = mret a →
      atom_key a ∈ t →
      loops all t l (out, r) →
      loops all t (b :: l) (skipped_line a :: out, r)
  | loops_add all t b l a t' out r :
      benchmark_id b = mret a →
      atom_key a ∉ t →
      table_add t (atom_key a) t' →
      loops (all ++ [b]) t' l (out, r) →
      loops all t (b :: l) (out, r).

(** Lines 28-48: what a run prints and the merged list it ends with. *)
Inductive merges (current new_bench new_bench1 : list json)
    : run (list json) → Prop :=
  | merges_raise_ids c :
      collects [] current (Raise c) →
      merges current new_bench new_bench1 ([], Raise c)
  | merges_raise_first t out c :
      collects [] current (Ok t) →
      loops current t new_bench (out, Raise c) →
      merges current new_bench new_bench1 (out, Raise c)
  | merges_second t out all t' out' r :
      collects [] current (Ok t) →
      loops current t new_bench (out, Ok (all, t')) →
      loops all t' new_bench1 (out', r) →
      merges current new_bench new_bench1 (out ++ out', shown r).

(** * The script as a whole

    [merge_benchmarks] from its first line to its last.  A string is the
    UTF-8 encoding of the Python [str].  Beside what it prints, a run shows
    the one write it attempts.  [sorted] is taken as a sort by insertion
    whose comparisons are Python's [<]: like any sort by comparisons it
    raises when two of the items cannot be compared, and gives the items in
    ascending order otherwise. *)

(** ** Documents as collections *)

(** A byte that continues a character in UTF-8. *)
Definition is_continuation (c : Ascii.ascii) : bool :=
  let n := Ascii.N_of_ascii c in
  (128 <=? n)%N && (n <? 192)%N.

(** The characters of a string. *)
Fixpoint code_points (s : string) : list string :=
  match s with
  | EmptyString => []
  | String c s' =>
      let rest := code_points s' in
      match s', rest with
      | String c' _, p :: ps =>
          if is_continuation c' then String c p :: ps
          else String c EmptyString :: rest
      | _, _ => String c EmptyString :: rest
      end
  end.

(** What iterating over a document yields: the elements of a list, the
    characters of a string, the keys of a dict; nothing else of a parsed
    document can be iterated over, or has a length. *)
Definition collection_of (doc : json) : option (list json) :=
  match doc with
  | JArr l => Some l
  | JStr s => Some (JStr <$> code_points s)
  | JObj items => Some (JStr <$> items.*1)
  | JNull | JBool _ | JNum _ => None
  end.

(** [len(doc)]. *)
Definition py_len (doc : json) : run nat :=
  match collection_of doc with
  | Some l => mret (length l)
  | None => raise TypeError
  end.

(** [for x in doc], as [extend] and the loops go through a document. *)
Definition py_iter (doc : json) : run (list json) :=
  match collection_of doc with
  | Some l => mret l
  | None => raise TypeError
  end.

(** ** The tally as a Python dict (lines 53-56)

    A Python [dict] keeps its keys in the order of their insertion, and an
    assignment to a key it has leaves the key as it was first given. *)

Fixpoint dict_incr (cat : atom) (categories : list (atom * nat))
    : list (atom * nat) :=
  match categories with
  | [] => [(cat, 0 + 1)]
  | (cat', count) :: rest =>
      if decide (atom_key cat' = atom_key cat) then (cat', count + 1) :: rest
      else (cat', count) :: dict_incr cat rest
  end.

Definition tally_category (categories : list (atom * nat)) (b : json)
    : run (list (atom * nat)) :=
  cat ← get_default b "category" (JStr "unknown");
  a ← hashable cat;
  mret (dict_incr a categories).

Definition tally (benchmarks : list json) : run (list (atom * nat)) :=
  for_each tally_category [] benchmarks.

(** The dict as a map from the classes of its keys. *)
Definition dict_to_map (categories : list (atom * nat)) : gmap pykey nat :=
  list_to_map (prod_map atom_key id <$> categories).

(** ** Sorting the items (line 59) *)

(** The integer a boolean or an integer compares as. *)
Definition atom_number (a : atom) : option Z :=
  match a with
  | ABool b => Some (if b then 1 else 0)%Z
  | AInt z => Some z
  | ANone | AStr _ => None
  end.

(** [a < b]: between two strings, or between two numbers. *)
Definition atom_lt (a b : atom) : run bool :=
  match a, b with
  | AStr s, AStr t => mret (String.ltb s t)
  | _, _ =>
      match atom_number a, atom_number b with
      | Some x, Some y => mret (x <? y)%Z
      | _, _ => raise TypeError
      end
  end.

(** [x < y] on the tuples [(cat, count)]: the first components decide
    unless they are equal. *)
Definition item_lt (x y : atom * nat) : run bool :=
  if decide (atom_key x.1 = atom_key y.1) then mret (x.2 <? y.2)
  else atom_lt x.1 y.1.

Fixpoint insert_item (x : atom * nat) (l : list (atom * nat))
    : run (list (atom * nat)) :=
  match l with
  | [] => mret [x]
  | y :: l' =>
      lt ← item_lt x y;
      if lt : bool then mret (x :: y :: l')
      else l'' ← insert_item x l'; mret (y :: l'')
  end.

(** [sorted(items)]. *)
Fixpoint sorted (items : list (atom * nat)) : run (list (atom * nat)) :=
  match items with
  | [] => mret []
  | x :: items' => l ← sorted items'; insert_item x l
  end.

(** ** The texts of the report *)

Definition newline : string := String (Ascii.ascii_of_nat 10) "".

Definition loaded_line (source : string) (n : nat) : string :=
  "  - " +:+ source +:+ ": " +:+ pretty n +:+ " benchmarks".

Definition merged_line (n : nat) : string :=
  newline +:+ "Merged dataset: " +:+ pretty n +:+ " total benchmarks".

Definition category_line (item : atom * nat) : string :=
  "  - " +:+ py_str item.1 +:+ ": " +:+ pretty item.2 +:+ " benchmarks".

Definition output_file : string := "data/benchmarks_merged.json".

Definition saved_line : string :=
  newline +:+ "✅ Merged file saved to: " +:+ output_file.

Definition total_line (n : nat) : string :=
  "📊 Total unique benchmarks: " +:+ pretty n.

(** Lines 59-60. *)
Definition print_categories (categories : list (atom * nat)) : run unit :=
  items ← sorted categories;
  for_each (λ _ item, print (category_line item)) tt items.

Definition distribution_heading : string :=
  newline +:+ "Category distribution:".

(** ** Lines 18-60: everything before the file is written *)

(** Lines 22-25. *)
Definition loaded_report (current new_bench new_bench1 : json) : run unit :=
  print "Loaded benchmarks:";;
  n ← py_len current;
  print (loaded_line "Current" n);;
  n ← py_len new_bench;
  print (loaded_line "New bench" n);;
  n ← py_len new_bench1;
  print (loaded_line "New bench1" n).

(** Lines 28-60, over the records of the three documents. *)
Definition merge_and_tally (current new_bench new_bench1 : list json)
    : run (list json) :=
  st ← merge_step current new_bench new_bench1;
  print (merged_line (length (all_benchmarks st)));;
  categories ← tally (all_benchmarks st);
  print distribution_heading;;
  print_categories categories;;
  mret (all_benchmarks st).

(** Lines 22-60, over the three documents loaded. *)
Definition report_of_documents (current new_bench new_bench1 : json)
    : run (list json) :=
  loaded_report current new_bench new_bench1;;
  current_records ← py_iter current;
  new_bench_records ← py_iter new_bench;
  new_bench1_records ← py_iter new_bench1;
  merge_and_tally current_records new_bench_records new_bench1_records.

Definition merge_report (w : world) : run (list json) :=
  current ← load_json_file w "data/benchmarks.json";
  new_bench ← load_json_file w "data/new_bench.json";
  new_bench1 ← load_json_file w "data/new_bench1.json";
  report_of_documents current new_bench new_bench1.

(** ** Lines 62-70: the file written, the last texts, the value returned *)

(** What a run does that can be seen from outside: a text printed, or an
    attempt to write a document to a file, with the exception that ended
    it if one did. *)
Inductive effect : Type :=
  | Printed (text : string)
  | Dump (path : string) (doc : json) (failure : option exn).

Definition script (A : Type) : Type := list effect * result A.

Global Instance script_ret : MRet script := λ A a, ([], Ok a).

Global Instance script_bind : MBind script := λ A B f m,
  match m with
  | (trace, Ok a) => let '(trace', r) := f a in (trace ++ trace', r)
  | (trace, Raise c) => (trace, Raise c)
  end.

(** A run that only prints. *)
Definition say {A} (m : run A) : script A := (Printed <$> m.1, m.2).

(** The script's way out: [fs_dump path doc] is the outcome of opening
    [path] for writing and dumping [doc] there, an exception or none. *)
Record system : Type := System {
  inputs : world;
  fs_dump : string → json → option exn
}.

(** Lines 64-65. *)
Definition dump (sys : system) (path : string) (doc : json) : script unit :=
  match fs_dump sys path doc with
  | None => ([Dump path doc None], Ok tt)
  | Some e => ([Dump path doc (Some e)], Raise (exn_class_of e))
  end.

Definition merge_benchmarks (sys : system) : script (list json) :=
  all ← say (merge_report (inputs sys));
  dump sys output_file (JArr all);;
  say (print saved_line);;
  say (print (total_line (length all)));;
  mret all.

Definition trace {A} (m : script A) : list effect := m.1.
Definition ending {A} (m : script A) : result A := m.2.

(** The writes a run attempted. *)
Definition dumps (t : list effect) : list (string * json * option exn) :=
  omap (λ e, match e with
             | Dump path doc failure => Some (path, doc, failure)
             | Printed _ => None
             end) t.

(** The texts a run printed. *)
Definition printed (t : list effect) : list string :=
  omap (λ e, match e with
             | Printed text => Some text
             | Dump _ _ _ => None
             end) t.

(** ** Vocabulary of the further properties *)

(** The exception [benchmark['id']] or the hashing of its value raises on
    a record, read off the record: [KeyError] for a dict without the key,
    [TypeError] for a value that is no dict and for an id that is a list or
    a dict. *)
Definition fault_class (b : json) : option exn_class :=
  match b with
  | JObj items =>
      match dict_get items "id" with
      | None => Some KeyError
      | Some (JArr _ | JObj _) => Some TypeError
      | Some (JNull | JBool _ | JNum _ | JStr _) => None
      end
  | _ => Some TypeError
  end.

(** The exception of the first record of a list that has one. *)
Fixpoint first_fault (l : list json) : option exn_class :=
  match l with
  | [] => None
  | b :: l' =>
      match fault_class b with
      | Some c => Some c
      | None => first_fault l'
      end
  end.

(** The exception the tally raises on a record, read off the record:
    [AttributeError] for a value that is no dict, [TypeError] for a
    category that is a list or a dict. *)
Definition category_fault (b : json) : option exn_class :=
  match b with
  | JObj items =>
      match dict_get items "category" with
      | Some (JArr _ | JObj _) => Some TypeError
      | _ => None
      end
  | _ => Some AttributeError
  end.

Fixpoint first_category_fault (l : list json) : option exn_class :=
  match l with
  | [] => None
  | b :: l' =>
      match category_fault b with
      | Some c => Some c
      | None => first_category_fault l'
      end
  end.

(** The keys of a dict, as the classes they are compared by. *)
Definition dict_keys (categories : list (atom * nat)) : list pykey :=
  atom_key <$> categories.*1.

(** What Python's [<] tells apart: strings compare with strings, numbers
    (booleans are numbers) with numbers, [None] with nothing. *)
Inductive kind : Type := Text | Number.

Global Instance kind_eq_dec : EqDecision kind.
Proof. solve_decision. Defined.

Definition kind_of (a : atom) : option kind :=
  match a with
  | AStr _ => Some Text
  | ABool _ | AInt _ => Some Number
  | ANone => None
  end.

Definition all_of_kind (kd : kind) (items : list (atom * nat)) : Prop :=
  Forall (λ item, kind_of item.1 = Some kd) items.

(** Items that can be sorted: at most one item, or categories that all are
    strings, or that all are numbers. *)
Definition sortable (items : list (atom * nat)) : Prop :=
  length items ≤ 1 ∨ all_of_kind Text items ∨ all_of_kind Number items.

Global Instance sortable_dec items : Decision (sortable items).
Proof. unfold sortable, all_of_kind. apply _. Defined.

(** The order of the categories: that of the strings by their characters,
    that of the numbers by their values. *)
Definition atom_before (a b : atom) : Prop :=
  match a, b with
  | AStr s, AStr t => String.ltb s t = true
  | _, _ =>
      match atom_number a, atom_number b with
      | Some x, Some y => (x < y)%Z
      | _, _ => False
      end
  end.

Definition item_before (x y : atom * nat) : Prop := atom_before x.1 y.1.

(** A run that prints nothing and can raise nothing but [TypeError]. *)
Definition quiet {A} (m : run A) : Prop :=
  stdout m = [] ∧ ∀ c, outcome m = Raise c → c = TypeError.

(** ** Vocabulary of the properties of the script *)

(** The three loads return the documents [d1], [d2], [d3], after printing
    [errors]. *)
Definition loaded (w : world) (d1 d2 d3 : json) (errors : list string) : Prop :=
  ∃ o1 o2 o3,
    load_json_file w "data/benchmarks.json" = (o1, Ok d1) ∧
    load_json_file w "data/new_bench.json" = (o2, Ok d2) ∧
    load_json_file w "data/new_bench1.json" = (o3, Ok d3) ∧
    errors = o1 ++ o2 ++ o3.

(** The texts of lines 22-25 when the three documents have a length. *)
Definition report_head (l1 l2 l3 : list json) : list string :=
  ["Loaded benchmarks:"; loaded_line "Current" (length l1);
   loaded_line "New bench" (length l2); loaded_line "New bench1" (length l3)].

(** The texts of lines 22-25 that are printed before [len] raises, or all
    of them. *)
Definition report_head_until_fault (d1 d2 d3 : json) : list string :=
  "Loaded benchmarks:" ::
  match collection_of d1 with
  | None => []
  | Some l1 =>
      loaded_line "Current" (length l1) ::
      match collection_of d2 with
      | None => []
      | Some l2 =>
          loaded_line "New bench" (length l2) ::
          match collection_of d3 with
          | None => []
          | Some l3 => [loaded_line "New bench1" (length l3)]
          end
      end
  end.

(** The texts printed before the file is written, in a run that gets
    there. *)
Definition report (errors : list string) (l1 l2 l3 : list json)
    (out : list json) (items : list (atom * nat)) : list string :=
  errors ++ report_head l1 l2 l3 ++ stdout (merge_step l1 l2 l3) ++
  [merged_line (length out); distribution_heading] ++
  (category_line <$> items).




Definition writable (w : world) : system :=
  {| inputs := w; fs_dump _ _ := None |}.

(** A world where reading any file is interrupted from the keyboard. *)
Definition interrupted_world : world := {|
  fs_open name := inl (Exn KeyboardInterrupt "");
  json_loads text := inr JNull
|}.

(** The three input files, in the order of their loads. *)
Definition input_files : list string :=
  ["data/benchmarks.json"; "data/new_bench.json"; "data/new_bench1.json"].

(** A world whose first file holds a record without id after a good
    one, the others being missing. *)
Definition faulty_world : world := {|
  fs_open name :=
    if decide (name = "data/benchmarks.json") then inr "faulty"
    else inl (Exn FileNotFoundError "No such file or directory");
  json_loads text :=
    inr (JArr [example_record 1 "x"; JObj [("category", JStr "x")]])
|}.

(** * Properties *)

(** ** The run monad *)

Lemma bind_ok {A B} (out : list string) (a : A) (f : A → run B) :
  ((out, Ok a) ≫= f) = (out ++ (f a).1, (f a).2).
Proof. unfold mbind, run_bind. by destruct (f a). Qed.

Lemma bind_mret {A B} (a : A) (f : A → run B) : (mret a ≫= f) = f a.
Proof. unfold mret, run_ret. rewrite bind_ok. by destruct (f a). Qed.

Lemma bind_silent {A B} (a : A) (f : A → run B) : (([], Ok a) ≫= f) = f a.
Proof. apply bind_mret. Qed.

Lemma for_each_app {S A} (body : S → A → run S) (st : S) (l1 l2 : list A) :
  for_each body st (l1 ++ l2) =
  (st' ← for_each body st l1; for_each body st' l2).
Proof.
  revert st. induction l1 as [|x l1 IH]; intros st; cbn [for_each app].
  - by rewrite bind_mret.
  - destruct (body st x) as [out [st'|c]]; [|done].
    rewrite !bind_ok, IH.
    destruct (for_each body st' l1) as [out1 [st1|c1]]; [|done].
    repeat (rewrite !bind_ok; cbn [fst snd]). by rewrite app_assoc.
Qed.

(** ** Reading the id of a record *)

Lemma benchmark_id_silent (b : json) : stdout (benchmark_id b) = [].
Proof.
  unfold benchmark_id, getitem.
  destruct b as [| | | | |items]; try done.
  destruct (dict_get items "id") as [v|]; [|done].
  rewrite bind_mret. by destruct v.
Qed.

Lemma benchmark_id_Some (b : json) (a : atom) :
  id_of b = Some a → benchmark_id b = mret a.
Proof.
  unfold id_of. pose proof (benchmark_id_silent b) as Hs.
  destruct (benchmark_id b) as [out [a'|c]]; simpl in *; [|done].
  intros [= ->]. by subst.
Qed.

Lemma benchmark_id_None (b : json) :
  id_of b = None → ∃ c, benchmark_id b = raise c.
Proof.
  unfold id_of. pose proof (benchmark_id_silent b) as Hs.
  destruct (benchmark_id b) as [out [a'|c]]; simpl in *; [done|].
  intros _. exists c. by subst.
Qed.

(** A record without the ['id'] field is not well formed. *)
Lemma well_formed_has_id_field (b : json) : well_formed b → has_id_field b.
Proof.
  unfold well_formed, id_of, benchmark_id, getitem, has_id_field.
  destruct b as [| | | | |items]; simpl; try by intros [? [=]].
  destruct (dict_get items "id"); [eauto|by intros [? [=]]].
Qed.

(** ** Selecting by position *)

Section select_at.
Context {A : Type}.
Implicit Types l : list A.

Lemma select_at_shift (Q : nat → A → Prop) `{∀ i x, Decision (Q i x)}
    (g : nat → nat) l :
  (filter (λ p, Q p.1 p.2) (imap (λ i x, (g i, x)) l)).*2 =
  select_at (λ i, Q (g i)) l.
Proof.
  unfold select_at. revert Q H g.
  induction l as [|x l IH]; intros Q ? g; [done|].
  rewrite !imap_cons, !filter_cons. unfold compose. cbn [fst snd].
  assert ((filter (λ p, Q p.1 p.2) (imap (λ i y, (g (S i), y)) l)).*2 =
          (filter (λ p, Q (g p.1) p.2) (imap (λ i y, (S i, y)) l)).*2)
    as Htail.
  { etrans; [apply (IH Q H (λ i, g (S i)))|].
    symmetry. apply (IH (λ i, Q (g i)) (λ i y, H (g i) y) S). }
  destruct (decide (Q (g 0) x)); cbn [fmap list_fmap snd]; by rewrite Htail.
Qed.

Lemma select_at_nil (Q : nat → A → Prop) `{∀ i x, Decision (Q i x)} :
  select_at Q [] = [].
Proof. done. Qed.

Lemma select_at_cons (Q : nat → A → Prop) `{∀ i x, Decision (Q i x)} x l :
  select_at Q (x :: l) =
  (if decide (Q 0 x) then [x] else []) ++ select_at (λ i, Q (S i)) l.
Proof.
  rewrite <-(select_at_shift Q S). unfold select_at.
  rewrite imap_cons, filter_cons. unfold compose. cbn [fst snd].
  by destruct (decide (Q 0 x)).
Qed.

Lemma select_at_ext (Q1 Q2 : nat → A → Prop)
    `{∀ i x, Decision (Q1 i x)} `{∀ i x, Decision (Q2 i x)} l :
  (∀ i x, l !! i = Some x → Q1 i x ↔ Q2 i x) →
  select_at Q1 l = select_at Q2 l.
Proof.
  revert Q1 Q2 H H0. induction l as [|x l IH]; intros Q1 Q2 ? ? HQ; [done|].
  rewrite !select_at_cons.
  rewrite (IH (λ i, Q1 (S i)) (λ i, Q2 (S i)) _ _).
  - destruct (decide (Q1 0 x)) as [H1|H1], (decide (Q2 0 x)) as [H2|H2];
      try done; apply (HQ 0 x) in H1 || apply (HQ 0 x) in H2; done.
  - intros i y Hi. by apply (HQ (S i)).
Qed.

Lemma select_at_app (Q : nat → A → Prop) `{∀ i x, Decision (Q i x)} l1 l2 :
  select_at Q (l1 ++ l2) =
  select_at Q l1 ++ select_at (λ i, Q (length l1 + i)) l2.
Proof.
  revert Q H. induction l1 as [|x l1 IH]; intros Q ?; [done|].
  cbn [app]. rewrite !select_at_cons, IH, <-app_assoc. done.
Qed.

Lemma select_at_length_complement (Q : nat → A → Prop)
    `{∀ i x, Decision (Q i x)} l :
  length (select_at Q l) + length (select_at (λ i x, ¬ Q i x) l) = length l.
Proof.
  revert Q H. induction l as [|x l IH]; intros Q ?; [done|].
  rewrite !select_at_cons, !length_app. cbn [length].
  specialize (IH (λ i, Q (S i)) _).
  destruct (decide (Q 0 x)), (decide (¬ Q 0 x)); simpl; try done; lia.
Qed.

Lemma elem_of_select_at (Q : nat → A → Prop) `{∀ i x, Decision (Q i x)} l x :
  x ∈ select_at Q l ↔ ∃ i, l !! i = Some x ∧ Q i x.
Proof.
  revert Q H. induction l as [|y l IH]; intros Q ?.
  - rewrite select_at_nil. split; [by intros ?%elem_of_nil|].
    by intros (i & ? & _).
  - rewrite select_at_cons, elem_of_app, IH. split.
    + intros [Hx|(i & Hi & HQ)].
      * destruct (decide (Q 0 y)); [|by apply elem_of_nil in Hx].
        apply list_elem_of_singleton in Hx as ->. by exists 0.
      * by exists (S i).
    + intros ([|i] & Hi & HQ); simpl in Hi.
      * injection Hi as ->. left. rewrite decide_True by done.
        by apply list_elem_of_singleton.
      * right. by exists i.
Qed.
End select_at.

(** ** Sets of ids and the seen set at a turn *)

Lemma ids_of_nil : ids_of [] = ∅.
Proof. done. Qed.

Lemma ids_of_cons (b : json) (l : list json) (k : pykey) :
  key_of b = Some k → ids_of (b :: l) = {[k]} ∪ ids_of l.
Proof. unfold ids_of. cbn [omap list_omap]. by intros ->. Qed.

Lemma ids_of_app (l1 l2 : list json) :
  ids_of (l1 ++ l2) = ids_of l1 ∪ ids_of l2.
Proof. unfold ids_of. by rewrite omap_app, list_to_set_app_L. Qed.

Lemma elem_of_ids_of (k : pykey) (l : list json) :
  k ∈ ids_of l ↔ ∃ b, b ∈ l ∧ has_key k b.
Proof.
  unfold ids_of, has_key. rewrite elem_of_list_to_set, list_elem_of_omap.
  done.
Qed.

Lemma seen_in_key (seen : gset pykey) (b : json) (k : pykey) :
  key_of b = Some k → seen_in seen b ↔ k ∈ seen.
Proof. unfold seen_in. by intros ->. Qed.

Lemma seen_at_turn_0 (seen : gset pykey) (l : list json) :
  seen_at_turn seen l 0 = seen.
Proof.
  unfold seen_at_turn. rewrite take_0, ids_of_nil. apply (right_id_L ∅ (∪)).
Qed.

Lemma seen_again (seen : gset pykey) (k : pykey) :
  k ∈ seen → {[k]} ∪ seen = seen.
Proof. intros Hk. apply subseteq_union_1_L. by apply singleton_subseteq_l. Qed.

Lemma not_well_formed (b : json) : ¬ well_formed b → id_of b = None.
Proof. unfold well_formed. by rewrite eq_None_not_Some. Qed.

Lemma processed_well_formed (l : list json) :
  Forall well_formed l → processed l = l.
Proof.
  induction 1 as [|b l Hb _ IH]; [done|].
  cbn [processed]. by rewrite decide_True, IH.
Qed.

Lemma processed_Forall (l : list json) : Forall well_formed (processed l).
Proof.
  induction l as [|b l IH]; cbn [processed]; [done|].
  destruct (decide (well_formed b)); by constructor.
Qed.

Lemma new_records_cons (seen : gset pykey) (b : json) (l : list json) (k : pykey) :
  key_of b = Some k →
  new_records seen (b :: l) =
  (if decide (k ∈ seen) then [] else [b]) ++ new_records ({[k]} ∪ seen) l.
Proof.
  intros Hk. unfold new_records. rewrite select_at_cons. f_equal.
  - rewrite seen_at_turn_0. pose proof (seen_in_key seen b k Hk).
    repeat case_decide; tauto.
  - apply select_at_ext. intros i x _. unfold seen_at_turn.
    cbn [take]. rewrite (ids_of_cons b _ k Hk).
    by rewrite (assoc_L (∪)), (comm_L (∪) seen).
Qed.

Lemma duplicate_records_cons (seen : gset pykey) (b : json) (l : list json)
    (k : pykey) :
  key_of b = Some k →
  duplicate_records seen (b :: l) =
  (if decide (k ∈ seen) then [b] else []) ++
  duplicate_records ({[k]} ∪ seen) l.
Proof.
  intros Hk. unfold duplicate_records. rewrite select_at_cons. f_equal.
  - rewrite seen_at_turn_0. pose proof (seen_in_key seen b k Hk).
    repeat case_decide; tauto.
  - apply select_at_ext. intros i x _. unfold seen_at_turn.
    cbn [take]. rewrite (ids_of_cons b _ k Hk).
    by rewrite (assoc_L (∪)), (comm_L (∪) seen).
Qed.

Lemma new_records_app (seen : gset pykey) (l1 l2 : list json) :
  new_records seen (l1 ++ l2) =
  new_records seen l1 ++ new_records (seen ∪ ids_of l1) l2.
Proof.
  unfold new_records. rewrite select_at_app. f_equal.
  - apply select_at_ext. intros i x Hi. unfold seen_at_turn.
    by rewrite take_app_le by (apply lookup_lt_Some in Hi; lia).
  - apply select_at_ext. intros i x _. unfold seen_at_turn.
    rewrite take_app_ge by lia.
    replace (length l1 + i - length l1) with i by lia.
    by rewrite ids_of_app, (assoc_L (∪)).
Qed.

Lemma duplicate_records_app (seen : gset pykey) (l1 l2 : list json) :
  duplicate_records seen (l1 ++ l2) =
  duplicate_records seen l1 ++ duplicate_records (seen ∪ ids_of l1) l2.
Proof.
  unfold duplicate_records. rewrite select_at_app. f_equal.
  - apply select_at_ext. intros i x Hi. unfold seen_at_turn.
    by rewrite take_app_le by (apply lookup_lt_Some in Hi; lia).
  - apply select_at_ext. intros i x _. unfold seen_at_turn.
    rewrite take_app_ge by lia.
    replace (length l1 + i - length l1) with i by lia.
    by rewrite ids_of_app, (assoc_L (∪)).
Qed.

(** ** One iteration and one loop of the merge *)

Lemma add_benchmark_seen (st : merge_state) (b : json) (a : atom) :
  id_of b = Some a → atom_key a ∈ existing_ids st →
  add_benchmark st b = ([skipped_line a], Ok st).
Proof.
  intros Ha Hin. unfold add_benchmark.
  rewrite (benchmark_id_Some b a Ha), bind_mret.
  by rewrite decide_True.
Qed.

Lemma add_benchmark_new (st : merge_state) (b : json) (a : atom) :
  id_of b = Some a → atom_key a ∉ existing_ids st →
  add_benchmark st b =
  ([], Ok {| all_benchmarks := all_benchmarks st ++ [b];
             existing_ids := {[atom_key a]} ∪ existing_ids st |}).
Proof.
  intros Ha Hin. unfold add_benchmark.
  rewrite (benchmark_id_Some b a Ha), bind_mret.
  by rewrite decide_False.
Qed.

Lemma add_benchmark_fault (st : merge_state) (b : json) :
  id_of b = None → ∃ c, add_benchmark st b = ([], Raise c).
Proof.
  intros Hb. destruct (benchmark_id_None b Hb) as [c Hc].
  exists c. unfold add_benchmark. by rewrite Hc.
Qed.

Lemma notices_cons (b : json) (a : atom) (l : list json) :
  id_of b = Some a → notices (b :: l) = skipped_line a :: notices l.
Proof. unfold notices. cbn [omap list_omap]. by intros ->. Qed.

Lemma add_benchmarks_ok (st : merge_state) (l : list json) :
  Forall well_formed l →
  for_each add_benchmark st l =
  (notices (duplicate_records (existing_ids st) l),
   Ok {| all_benchmarks := all_benchmarks st ++ new_records (existing_ids st) l;
         existing_ids := existing_ids st ∪ ids_of l |}).
Proof.
  intros Hl. revert st.
  induction Hl as [|b l [a Ha] _ IH]; intros st; cbn [for_each].
  - unfold new_records, duplicate_records. rewrite !select_at_nil, ids_of_nil.
    destruct st. cbn. by rewrite app_nil_r, (right_id_L ∅ (∪)).
  - assert (key_of b = Some (atom_key a)) as Hk by (unfold key_of; by rewrite Ha).
    rewrite (new_records_cons _ _ _ _ Hk), (duplicate_records_cons _ _ _ _ Hk).
    rewrite (ids_of_cons _ _ _ Hk).
    destruct (decide (atom_key a ∈ existing_ids st)) as [Hin|Hin].
    + rewrite (add_benchmark_seen _ _ _ Ha Hin), bind_ok, IH.
      cbn [fst snd app].
      rewrite (notices_cons _ _ _ Ha).
      rewrite (seen_again _ _ Hin).
      by rewrite (assoc_L (∪)), (comm_L (∪) (existing_ids st) {[atom_key a]}),
        (seen_again _ _ Hin).
    + rewrite (add_benchmark_new _ _ _ Ha Hin), bind_ok, IH.
      cbn [fst snd existing_ids all_benchmarks app].
      rewrite <-app_assoc. cbn [app].
      by rewrite (assoc_L (∪)), (comm_L (∪) (existing_ids st)).
Qed.

Lemma add_benchmarks_fault (st : merge_state) (l : list json) :
  ¬ Forall well_formed l →
  ∃ c, outcome (for_each add_benchmark st l) = Raise c.
Proof.
  revert st. induction l as [|b l IH]; intros st Hl; [by destruct Hl|].
  cbn [for_each]. destruct (id_of b) as [a|] eqn:Ha.
  - assert (¬ Forall well_formed l) as Hl'.
    { intros ?. apply Hl. constructor; [by exists a|done]. }
    destruct (decide (atom_key a ∈ existing_ids st)) as [Hin|Hin].
    + rewrite (add_benchmark_seen _ _ _ Ha Hin), bind_ok.
      apply (IH st Hl').
    + rewrite (add_benchmark_new _ _ _ Ha Hin), bind_ok.
      apply (IH _ Hl').
  - destruct (add_benchmark_fault st b Ha) as [c ->]. by exists c.
Qed.

Lemma add_benchmarks_stdout (st : merge_state) (l : list json) :
  stdout (for_each add_benchmark st l) =
  notices (duplicate_records (existing_ids st) (processed l)).
Proof.
  revert st. induction l as [|b l IH]; intros st; [done|].
  cbn [for_each processed].
  destruct (decide (well_formed b)) as [[a Ha]|Hb].
  - assert (key_of b = Some (atom_key a)) as Hk by (unfold key_of; by rewrite Ha).
    rewrite (duplicate_records_cons _ _ _ _ Hk).
    destruct (decide (atom_key a ∈ existing_ids st)) as [Hin|Hin].
    + rewrite (add_benchmark_seen _ _ _ Ha Hin), bind_ok.
      unfold stdout in *. cbn [fst app].
      by rewrite IH, (notices_cons _ _ _ Ha), (seen_again _ _ Hin).
    + rewrite (add_benchmark_new _ _ _ Ha Hin), bind_ok.
      unfold stdout in *. cbn [fst app]. by rewrite IH.
  - by destruct (add_benchmark_fault st b (not_well_formed b Hb)) as [c ->].
Qed.

Lemma collect_ids_from (seen : gset pykey) (l : list json) :
  Forall well_formed l →
  for_each (λ ids b, a ← benchmark_id b; mret ({[atom_key a]} ∪ ids)) seen l =
  ([], Ok (seen ∪ ids_of l)).
Proof.
  intros Hl. revert seen.
  induction Hl as [|b l [a Ha] _ IH]; intros seen; cbn [for_each].
  - by rewrite ids_of_nil, (right_id_L ∅ (∪)).
  - assert (key_of b = Some (atom_key a)) as Hk by (unfold key_of; by rewrite Ha).
    rewrite (benchmark_id_Some b a Ha), !bind_mret, IH, (ids_of_cons _ _ _ Hk).
    by rewrite (assoc_L (∪)), (comm_L (∪) seen).
Qed.

Lemma collect_ids_ok (l : list json) :
  Forall well_formed l → collect_ids l = ([], Ok (ids_of l)).
Proof.
  intros Hl. unfold collect_ids.
  by rewrite (collect_ids_from ∅ l Hl), (left_id_L ∅ (∪)).
Qed.

Lemma collect_ids_fault (l : list json) :
  ¬ Forall well_formed l → ∃ c, collect_ids l = ([], Raise c).
Proof.
  unfold collect_ids. generalize (∅ : gset pykey).
  induction l as [|b l IH]; intros seen Hl; [by destruct Hl|].
  cbn [for_each]. destruct (id_of b) as [a|] eqn:Ha.
  - rewrite (benchmark_id_Some b a Ha), !bind_mret.
    apply IH. intros ?. apply Hl. constructor; [by exists a|done].
  - destruct (benchmark_id_None b Ha) as [c ->]. by exists c.
Qed.

(** ** The merge step as a whole *)

Lemma merge_step_ok (current new_bench new_bench1 : list json) :
  well_formed_inputs current new_bench new_bench1 →
  merge_step current new_bench new_bench1 =
  (notices (duplicate_records (ids_of current) new_bench) ++
   notices (duplicate_records (ids_of (current ++ new_bench)) new_bench1),
   Ok {| all_benchmarks :=
           current ++ new_records (ids_of current) new_bench ++
           new_records (ids_of (current ++ new_bench)) new_bench1;
         existing_ids := ids_of (current ++ new_bench ++ new_bench1) |}).
Proof.
  intros (Hc & Ha & Hb). unfold merge_step. cbn [app].
  rewrite (collect_ids_ok _ Hc), bind_silent.
  rewrite (add_benchmarks_ok _ _ Ha), bind_ok.
  rewrite (add_benchmarks_ok _ _ Hb). cbn [fst snd all_benchmarks existing_ids].
  by rewrite !ids_of_app, <-!(assoc_L (++)), !(assoc_L (∪)).
Qed.

Lemma merge_step_fault (current new_bench new_bench1 : list json) :
  ¬ well_formed_inputs current new_bench new_bench1 →
  ∃ c, outcome (merge_step current new_bench new_bench1) = Raise c.
Proof.
  intros Hnot. unfold merge_step. cbn [app].
  destruct (decide (Forall well_formed current)) as [Hc|Hc].
  - rewrite (collect_ids_ok _ Hc), bind_silent.
    destruct (decide (Forall well_formed new_bench)) as [Ha|Ha].
    + rewrite (add_benchmarks_ok _ _ Ha), bind_ok. cbn [snd].
      apply add_benchmarks_fault. intros Hb. by apply Hnot.
    + destruct (add_benchmarks_fault
        {| all_benchmarks := current; existing_ids := ids_of current |}
        new_bench Ha) as [c Hc'].
      exists c. unfold outcome in *.
      destruct (for_each add_benchmark _ new_bench) as [out r].
      cbn [snd] in Hc'. by subst.
  - destruct (collect_ids_fault _ Hc) as [c ->]. by exists c.
Qed.

(** The merge step ends without an exception exactly on inputs whose
    records all are dicts with a hashable id. *)
Lemma merge_step_ok_iff (current new_bench new_bench1 : list json) :
  (∃ st, outcome (merge_step current new_bench new_bench1) = Ok st) ↔
  well_formed_inputs current new_bench new_bench1.
Proof.
  split.
  - intros [st Hst].
    destruct (decide (well_formed_inputs current new_bench new_bench1))
      as [|Hnot]; [done|].
    destruct (merge_step_fault _ _ _ Hnot) as [c Hc]. congruence.
  - intros H. rewrite (merge_step_ok _ _ _ H). eauto.
Qed.

Lemma merged_ok (current new_bench new_bench1 : list json) :
  well_formed_inputs current new_bench new_bench1 →
  merged current new_bench new_bench1 =
  (notices (duplicate_records (ids_of current) new_bench) ++
   notices (duplicate_records (ids_of (current ++ new_bench)) new_bench1),
   Ok (current ++ new_records (ids_of current) new_bench ++
       new_records (ids_of (current ++ new_bench)) new_bench1)).
Proof.
  intros H. unfold merged. rewrite (merge_step_ok _ _ _ H), bind_ok.
  cbn. by rewrite app_nil_r.
Qed.

(** ** Order of the merged dataset *)

Ltac by_computation :=
  match goal with
  | |- ?P => apply (@bool_decide_unpack P _); vm_compute; exact I
  end.

Lemma for_each_turn {S A} (body : S → A → run S) (st : S) (l : list A) (n : nat) :
  for_each body st l =
  (st' ← for_each body st (take n l); for_each body st' (drop n l)).
Proof. by rewrite <-for_each_app, take_drop. Qed.

Lemma well_formed_inputs_take (current new_bench new_bench1 : list json) (n m : nat) :
  well_formed_inputs current new_bench new_bench1 →
  well_formed_inputs current (take n new_bench) (take m new_bench1).
Proof. intros (Hc & Ha & Hb). repeat split; [done|by apply Forall_take..]. Qed.

(** C1: on inputs the merge can process, the merged output is the records
    of [current] in their order, then the records of [new_bench] whose id
    is not in the seen set at their turn, then those of [new_bench1], each
    in their order; every record of [current] keeps its position, so it
    appears once.  The seen set at a turn is the one the code has built
    when the loops are stopped before that turn. *)
Theorem merged_order (current new_bench new_bench1 : list json) :
  well_formed_inputs current new_bench new_bench1 →
  ∃ out,
    outcome (merged current new_bench new_bench1) = Ok out ∧
    out = current ++
          new_records (ids_of current) new_bench ++
          new_records (ids_of (current ++ new_bench)) new_bench1 ∧
    take (length current) out = current ∧
    (∀ i st,
       outcome (merge_step current (take i new_bench) []) = Ok st →
       existing_ids st = seen_at_turn (ids_of current) new_bench i) ∧
    (∀ j st,
       outcome (merge_step current new_bench (take j new_bench1)) = Ok st →
       existing_ids st =
       seen_at_turn (ids_of (current ++ new_bench)) new_bench1 j).
Proof.
  intros H. eexists. rewrite (merged_ok _ _ _ H). split; [done|].
  split; [done|]. split; [by rewrite take_app_length|]. split.
  - intros i st.
    pose proof (merge_step_ok _ _ _ (well_formed_inputs_take _ _ _ i 0 H))
      as Hrun.
    rewrite take_0 in Hrun. rewrite Hrun.
    intros [= <-]. cbn [existing_ids]. unfold seen_at_turn.
    by rewrite ids_of_app, app_nil_r.
  - intros j st.
    pose proof (merge_step_ok _ _ _
      (well_formed_inputs_take _ _ _ (length new_bench) j H)) as Hrun.
    rewrite take_ge in Hrun by done. rewrite Hrun.
    intros [= <-]. cbn [existing_ids]. unfold seen_at_turn.
    by rewrite !ids_of_app, (assoc_L (∪)).
Qed.

Lemma merged_order_witness :
  well_formed_inputs example_current example_new_bench example_new_bench1 ∧
  ∃ out,
    outcome (merged example_current example_new_bench example_new_bench1) =
      Ok out ∧
    out = [example_record 1 "x"; example_record 2 "x"; example_record 3 "x"].
Proof.
  assert (well_formed_inputs example_current example_new_bench
            example_new_bench1) as H by by_computation.
  split; [exact H|].
  destruct (merged_order _ _ _ H) as (out & Hout & Hshape & _).
  exists out. split; [exact Hout|].
  rewrite Hshape. vm_compute. reflexivity.
Defined.

(** ** Records of one id *)

Lemma first_with_id_cons (k : pykey) (b : json) (l : list json) :
  first_with_id k (b :: l) =
  if decide (has_key k b) then Some b else first_with_id k l.
Proof.
  unfold first_with_id. cbn [list_find].
  destruct (decide (has_key k b)); [done|].
  by destruct (list_find (has_key k) l) as [[i r]|].
Qed.

Lemma first_with_id_app (k : pykey) (l1 l2 : list json) :
  first_with_id k (l1 ++ l2) =
  match first_with_id k l1 with
  | Some r => Some r
  | None => first_with_id k l2
  end.
Proof.
  induction l1 as [|b l1 IH]; [done|].
  cbn [app]. rewrite !first_with_id_cons.
  by destruct (decide (has_key k b)).
Qed.

(** Precedence is the order of the concatenation of the collections. *)
Lemma preferred_copy_first (k : pykey) (current new_bench new_bench1 : list json) :
  preferred_copy k current new_bench new_bench1 =
  first_with_id k (current ++ new_bench ++ new_bench1).
Proof. unfold preferred_copy. by rewrite !first_with_id_app. Qed.

Lemma first_with_id_None (k : pykey) (l : list json) :
  first_with_id k l = None ↔ k ∉ ids_of l.
Proof.
  rewrite elem_of_ids_of. induction l as [|b l IH].
  - split; [|done]. intros _ (r & Hr & _). by apply elem_of_nil in Hr.
  - rewrite first_with_id_cons. destruct (decide (has_key k b)) as [Hb|Hb].
    + split; [done|]. intros []. exists b. split; [left|done].
    + rewrite IH. split.
      * intros Hl (r & Hr & Hk). apply elem_of_cons in Hr as [->|Hr]; [done|].
        apply Hl. eauto.
      * intros Hl (r & Hr & Hk). apply Hl. exists r. split; [by right|done].
Qed.

Lemma first_with_id_Some (k : pykey) (l : list json) :
  k ∈ ids_of l → ∃ r, first_with_id k l = Some r.
Proof.
  intros Hk. destruct (first_with_id k l) as [r|] eqn:Hr; [eauto|].
  by apply first_with_id_None in Hr.
Qed.

Lemma filter_key_absent (k : pykey) (l : list json) :
  k ∉ ids_of l → filter (has_key k) l = [].
Proof.
  rewrite elem_of_ids_of. induction l as [|b l IH]; intros Hk; [done|].
  rewrite filter_cons. rewrite decide_False.
  - apply IH. intros (r & Hr & ?). apply Hk. exists r. split; [by right|done].
  - intros ?. apply Hk. exists b. split; [left|done].
Qed.

Lemma filter_key_once (k : pykey) (l : list json) :
  length (filter (has_key k) l) ≤ 1 →
  filter (has_key k) l = option_list (first_with_id k l).
Proof.
  induction l as [|b l IH]; [done|].
  rewrite filter_cons, first_with_id_cons.
  destruct (decide (has_key k b)) as [Hb|Hb]; [|done].
  cbn [length option_list]. intros Hlen.
  by destruct (filter (has_key k) l); [|simpl in Hlen; lia].
Qed.

Lemma filter_key_new_records (k : pykey) (seen : gset pykey) (l : list json) :
  Forall well_formed l →
  filter (has_key k) (new_records seen l) =
  if decide (k ∈ seen) then [] else option_list (first_with_id k l).
Proof.
  intros Hl. revert seen. induction Hl as [|b l [a Ha] _ IH]; intros seen.
  { unfold new_records. rewrite select_at_nil. by destruct (decide _). }
  assert (key_of b = Some (atom_key a)) as Hk by (unfold key_of; by rewrite Ha).
  assert (has_key k b ↔ atom_key a = k) as Hkb.
  { unfold has_key. rewrite Hk. split; [by intros [= ->]|by intros ->]. }
  rewrite (new_records_cons _ _ _ _ Hk), filter_app, IH, first_with_id_cons.
  destruct (decide (atom_key a ∈ seen)) as [Hin|Hin];
    rewrite ?filter_cons, ?filter_nil;
    repeat case_decide; try done; set_solver.
Qed.

(** The records of one id in the merged dataset. *)
Lemma survivors_of_id (k : pykey) (current new_bench new_bench1 : list json) :
  well_formed_inputs current new_bench new_bench1 →
  filter (has_key k)
    (current ++ new_records (ids_of current) new_bench ++
     new_records (ids_of (current ++ new_bench)) new_bench1) =
  if decide (k ∈ ids_of current) then filter (has_key k) current
  else option_list
         match first_with_id k new_bench with
         | Some r => Some r
         | None => first_with_id k new_bench1
         end.
Proof.
  intros (Hc & Ha & Hb).
  rewrite !filter_app, !filter_key_new_records, ids_of_app by done.
  destruct (decide (k ∈ ids_of current)) as [Hkc|Hkc].
  - rewrite decide_True by (apply elem_of_union; by left).
    by rewrite !app_nil_r.
  - rewrite (filter_key_absent _ _ Hkc). cbn [app].
    destruct (first_with_id k new_bench) as [r|] eqn:Hr.
    + rewrite decide_True; [by rewrite app_nil_r|].
      apply elem_of_union. right.
      destruct (decide (k ∈ ids_of new_bench)) as [|Hn]; [done|].
      apply first_with_id_None in Hn. congruence.
    + rewrite decide_False; [done|].
      apply first_with_id_None in Hr.
      by intros [?|?]%elem_of_union.
Qed.

(** ** Deduplication across the collections *)

(** C2, as worded, fails: with the id 1 twice in [current] and once in
    [new_bench], two records of id 1 survive. *)
Lemma one_survivor_per_shared_id_fails :
  ¬ one_survivor_per_shared_id twice_current once_new_bench [].
Proof.
  intros Hclaim.
  assert (outcome (merged twice_current once_new_bench []) =
          Ok [versioned 1 "a"; versioned 1 "b"]) as Hout
    by (vm_compute; reflexivity).
  assert (in_several (KInt 1) twice_current once_new_bench []) as Hk.
  { left. split; by_computation. }
  destruct (Hclaim _ _ Hout Hk) as (r & Hr & _).
  vm_compute in Hr. discriminate Hr.
Qed.

(** C2, amended: when [current] holds an id at most once, exactly one
    record of that id survives if the id is in several collections, and it
    is the first copy in the collection of highest precedence that has
    one. *)
Theorem one_survivor_when_once_in_current
    (current new_bench new_bench1 : list json) (k : pykey) :
  well_formed_inputs current new_bench new_bench1 →
  length (filter (has_key k) current) ≤ 1 →
  in_several k current new_bench new_bench1 →
  ∃ out r,
    outcome (merged current new_bench new_bench1) = Ok out ∧
    filter (has_key k) out = [r] ∧
    preferred_copy k current new_bench new_bench1 = Some r.
Proof.
  intros H Honce Hk. rewrite (merged_ok _ _ _ H). cbn [outcome snd].
  eexists. rewrite (survivors_of_id _ _ _ _ H). unfold preferred_copy.
  destruct (decide (k ∈ ids_of current)) as [Hkc|Hkc].
  - destruct (first_with_id_Some _ _ Hkc) as [r Hr].
    exists r. rewrite (filter_key_once _ _ Honce), Hr. done.
  - pose proof Hkc as Hnone. apply first_with_id_None in Hnone.
    rewrite Hnone.
    destruct Hk as [[? _]|[[? _]|[Hka _]]]; try done.
    destruct (first_with_id_Some _ _ Hka) as [r Hr].
    exists r. by rewrite Hr.
Qed.

Lemma one_survivor_when_once_in_current_witness :
  ∃ out r,
    outcome (merged example_current example_new_bench example_new_bench1) =
      Ok out ∧
    filter (has_key (KInt 2)) out = [r] ∧
    r = example_record 2 "x".
Proof.
  destruct (one_survivor_when_once_in_current
              example_current example_new_bench example_new_bench1 (KInt 2))
    as (out & r & Hout & Hone & Hr).
  - by_computation.
  - vm_compute. lia.
  - right. right. split; by_computation.
  - exists out, r. split; [exact Hout|]. split; [exact Hone|].
    vm_compute in Hr. by injection Hr as <-.
Defined.

(** ** Count of the merged dataset *)

Lemma length_new_records (seen : gset pykey) (l : list json) :
  Forall well_formed l →
  length (new_records seen l) = size (ids_of l ∖ seen).
Proof.
  intros Hl. revert seen. induction Hl as [|b l [a Ha] _ IH]; intros seen.
  { unfold new_records. rewrite select_at_nil, ids_of_nil.
    replace (∅ ∖ seen) with (∅ : gset pykey) by set_solver.
    by rewrite size_empty. }
  assert (key_of b = Some (atom_key a)) as Hk by (unfold key_of; by rewrite Ha).
  rewrite (new_records_cons _ _ _ _ Hk), length_app, IH, (ids_of_cons _ _ _ Hk).
  destruct (decide (atom_key a ∈ seen)) as [Hin|Hin]; cbn [length].
  - rewrite (seen_again _ _ Hin), Nat.add_0_l.
    apply (f_equal size). set_solver.
  - replace (({[atom_key a]} ∪ ids_of l) ∖ seen)
      with ({[atom_key a]} ∪ ids_of l ∖ ({[atom_key a]} ∪ seen)).
    + rewrite (size_union ({[atom_key a]} : gset pykey)) by set_solver.
      by rewrite size_singleton.
    + apply set_eq. intros x. rewrite !elem_of_union, !elem_of_difference,
        !elem_of_union, !elem_of_singleton.
      destruct (decide (x = atom_key a)) as [->|]; naive_solver.
Qed.

(** C3: on inputs the merge can process, the length of the merged output
    is the length of [current], plus the number of records appended from
    [new_bench], plus the number appended from [new_bench1]; the number
    appended from a collection is the number of ids it introduces, and with
    the records skipped it makes up the collection. *)
Theorem merged_count (current new_bench new_bench1 : list json) :
  well_formed_inputs current new_bench new_bench1 →
  ∃ out,
    outcome (merged current new_bench new_bench1) = Ok out ∧
    let appended := new_records (ids_of current) new_bench in
    let appended1 :=
      new_records (ids_of (current ++ new_bench)) new_bench1 in
    out = current ++ appended ++ appended1 ∧
    length out = length current + length appended + length appended1 ∧
    length appended = size (ids_of new_bench ∖ ids_of current) ∧
    length appended1 =
      size (ids_of new_bench1 ∖ (ids_of current ∪ ids_of new_bench)) ∧
    length appended +
      length (duplicate_records (ids_of current) new_bench) =
      length new_bench ∧
    length appended1 +
      length (duplicate_records (ids_of (current ++ new_bench)) new_bench1) =
      length new_bench1.
Proof.
  intros H. eexists. rewrite (merged_ok _ _ _ H). split; [done|].
  destruct H as (Hc & Ha & Hb). cbn zeta.
  split; [done|]. split; [rewrite !length_app; lia|].
  split; [by apply length_new_records|].
  split; [rewrite <-ids_of_app; by apply length_new_records|].
  unfold new_records, duplicate_records. split.
  - rewrite Nat.add_comm. apply select_at_length_complement.
  - rewrite Nat.add_comm. apply select_at_length_complement.
Qed.

Lemma merged_count_witness :
  ∃ out,
    outcome (merged example_current example_new_bench example_new_bench1) =
      Ok out ∧
    length out = 1 + 1 + 1.
Proof.
  destruct (merged_count example_current example_new_bench example_new_bench1)
    as (out & Hout & _ & Hlen & Ha & Hb & _).
  - by_computation.
  - exists out. split; [exact Hout|].
    rewrite Hlen, Ha, Hb. vm_compute. reflexivity.
Defined.

(** ** Ids of the appended records *)

Lemma id_list_app (l1 l2 : list json) :
  id_list (l1 ++ l2) = id_list l1 ++ id_list l2.
Proof. apply omap_app. Qed.

Lemma elem_of_id_list (k : pykey) (l : list json) :
  k ∈ id_list l ↔ k ∈ ids_of l.
Proof. unfold ids_of, id_list. by rewrite elem_of_list_to_set. Qed.

Lemma id_list_new_records_cons (seen : gset pykey) (b : json) (l : list json)
    (k : pykey) :
  key_of b = Some k →
  id_list (new_records seen (b :: l)) =
  (if decide (k ∈ seen) then [] else [k]) ++
  id_list (new_records ({[k]} ∪ seen) l).
Proof.
  intros Hk. rewrite (new_records_cons _ _ _ _ Hk), id_list_app.
  destruct (decide (k ∈ seen)); [done|].
  unfold id_list at 1. cbn [omap list_omap]. by rewrite Hk.
Qed.

Lemma elem_of_id_list_new_records (k : pykey) (seen : gset pykey) (l : list json) :
  Forall well_formed l →
  k ∈ id_list (new_records seen l) → k ∈ ids_of l ∧ k ∉ seen.
Proof.
  intros Hl. revert seen. induction Hl as [|b l [a Ha] _ IH]; intros seen.
  { unfold new_records. rewrite select_at_nil. by intros ?%elem_of_nil. }
  assert (key_of b = Some (atom_key a)) as Hk by (unfold key_of; by rewrite Ha).
  rewrite (id_list_new_records_cons _ _ _ _ Hk), (ids_of_cons _ _ _ Hk).
  rewrite elem_of_app. intros [Hhead|Htail].
  - destruct (decide (atom_key a ∈ seen)); [by apply elem_of_nil in Hhead|].
    apply list_elem_of_singleton in Hhead as ->. set_solver.
  - apply IH in Htail. set_solver.
Qed.

Lemma NoDup_id_list_new_records (seen : gset pykey) (l : list json) :
  Forall well_formed l → NoDup (id_list (new_records seen l)).
Proof.
  intros Hl. revert seen. induction Hl as [|b l [a Ha] Hl IH]; intros seen.
  { unfold new_records. rewrite select_at_nil. constructor. }
  assert (key_of b = Some (atom_key a)) as Hk by (unfold key_of; by rewrite Ha).
  rewrite (id_list_new_records_cons _ _ _ _ Hk).
  destruct (decide (atom_key a ∈ seen)); cbn [app]; [apply IH|].
  constructor; [|apply IH].
  intros Hin. apply (elem_of_id_list_new_records _ _ _ Hl) in Hin. set_solver.
Qed.

Lemma later_copy_seen (seen : gset pykey) (l : list json) (i j : nat)
    (r r' : json) (k : pykey) :
  i < j → l !! i = Some r → l !! j = Some r' →
  has_key k r → has_key k r' →
  seen_in (seen_at_turn seen l j) r'.
Proof.
  intros Hij Hi Hj Hr Hr'. unfold seen_in, seen_at_turn. rewrite Hr'.
  apply elem_of_union. right. apply elem_of_ids_of. exists r. split; [|done].
  apply list_elem_of_lookup. exists i. rewrite lookup_take_lt; done.
Qed.

(** ** Duplicates inside one collection *)

(** C4, as worded, fails: of two records of [new_bench] with the id 1 only
    the first is retained. *)
Lemma duplicates_within_retained_fails :
  ¬ duplicates_within_retained [] twice_new_bench [].
Proof.
  intros Hclaim.
  assert (outcome (merged [] twice_new_bench []) = Ok [versioned 1 "a"])
    as Hout by (vm_compute; reflexivity).
  destruct (Hclaim _ twice_new_bench 0 1 (versioned 1 "a") (versioned 1 "b")
              (KInt 1) Hout) as [_ Hlater]; try done.
  - apply elem_of_cons. right. apply elem_of_cons. by left.
  - lia.
  - apply list_elem_of_singleton in Hlater. discriminate Hlater.
Qed.

(** C4, amended: the records of [current] are all retained, those that
    share an id included.  Of two records of [new_bench], or of
    [new_bench1], that share an id, the later one finds the id in the seen
    set at its turn and is skipped; the records appended after those of
    [current] are the records not seen at their turn, and no two of them
    share an id. *)
Theorem duplicates_within_collections (current new_bench new_bench1 : list json) :
  well_formed_inputs current new_bench new_bench1 →
  ∃ out,
    outcome (merged current new_bench new_bench1) = Ok out ∧
    (∀ i r, current !! i = Some r → out !! i = Some r) ∧
    drop (length current) out =
      new_records (ids_of current) new_bench ++
      new_records (ids_of (current ++ new_bench)) new_bench1 ∧
    NoDup (id_list (drop (length current) out)) ∧
    (∀ i j r r' k,
       i < j → new_bench !! i = Some r → new_bench !! j = Some r' →
       has_key k r → has_key k r' →
       seen_in (seen_at_turn (ids_of current) new_bench j) r') ∧
    (∀ i j r r' k,
       i < j → new_bench1 !! i = Some r → new_bench1 !! j = Some r' →
       has_key k r → has_key k r' →
       seen_in (seen_at_turn (ids_of (current ++ new_bench)) new_bench1 j) r').
Proof.
  intros H. eexists. rewrite (merged_ok _ _ _ H). split; [done|].
  destruct H as (Hc & Ha & Hb).
  split; [intros i r Hi; by apply lookup_app_l_Some|].
  rewrite drop_app_length. split; [done|]. split.
  - rewrite ids_of_app, <-new_records_app.
    apply NoDup_id_list_new_records. by apply Forall_app.
  - split; intros i j r r' k; apply later_copy_seen.
Qed.

Lemma duplicates_within_collections_witness :
  ∃ out,
    outcome (merged twice_current twice_new_bench []) = Ok out ∧
    out = [versioned 1 "a"; versioned 1 "b"].
Proof.
  destruct (duplicates_within_collections twice_current twice_new_bench [])
    as (out & Hout & Hcur & Hdrop & _).
  - by_computation.
  - exists out. split; [exact Hout|].
    rewrite <-(take_drop (length twice_current) out), Hdrop.
    pose proof (Hcur 0 _ eq_refl) as H0. pose proof (Hcur 1 _ eq_refl) as H1.
    destruct out as [|x [|y out]]; try done.
    cbn in H0, H1. injection H0 as ->. injection H1 as ->.
    vm_compute. reflexivity.
Defined.

(** ** Faults of the merge step *)

Lemma well_formed_hashable_id (b : json) : well_formed b ↔ has_hashable_id b.
Proof.
  unfold well_formed, id_of, benchmark_id, getitem, has_hashable_id.
  destruct b as [| | | | |items]; try (split; [by intros [? [=]]|done]).
  destruct (dict_get items "id") as [v|]; [|split; [by intros [? [=]]|done]].
  rewrite bind_mret.
  destruct v; cbn; split; try done; try (by intros [? [=]]); eauto.
Qed.

Lemma well_formed_inputs_app (current new_bench new_bench1 : list json) :
  well_formed_inputs current new_bench new_bench1 ↔
  Forall well_formed (current ++ new_bench ++ new_bench1).
Proof. unfold well_formed_inputs. by rewrite !Forall_app. Qed.

(** C5, as worded, fails: a record whose ['id'] is a list has the field,
    and the merge raises [TypeError] on it. *)
Lemma faults_iff_id_missing_fails :
  ¬ faults_iff_id_missing [list_id_record] [] [].
Proof.
  intros [_ Hclaim]. destruct Hclaim as [st Hst].
  - repeat constructor. by eexists.
  - vm_compute in Hst. discriminate Hst.
Qed.

(** C5, amended: a record without the ['id'] field, in any of the three
    collections, makes the merge step end with an uncaught exception; and
    when every record has an ['id'] field whose value can be hashed
    ([None], a boolean, a number or a string), the merge step ends without
    an exception. *)
Theorem merge_step_faults (current new_bench new_bench1 : list json) :
  ((∃ b, b ∈ current ++ new_bench ++ new_bench1 ∧ ¬ has_id_field b) →
   ∃ c, outcome (merge_step current new_bench new_bench1) = Raise c) ∧
  (Forall has_hashable_id (current ++ new_bench ++ new_bench1) →
   ∃ st, outcome (merge_step current new_bench new_bench1) = Ok st).
Proof.
  split.
  - intros (b & Hb & Hmissing). apply merge_step_fault.
    rewrite well_formed_inputs_app, Forall_forall. intros Hall.
    apply Hmissing, well_formed_has_id_field. by apply Hall.
  - intros Hall. apply merge_step_ok_iff, well_formed_inputs_app.
    eapply Forall_impl; [exact Hall|]. intros b. apply well_formed_hashable_id.
Qed.

Lemma merge_step_faults_witness :
  (∃ c, outcome (merge_step example_current [JObj [("category", JStr "x")]] [])
        = Raise c) ∧
  (∃ st,
    outcome (merge_step example_current example_new_bench example_new_bench1)
    = Ok st).
Proof.
  split.
  - apply (proj1 (merge_step_faults example_current
                    [JObj [("category", JStr "x")]] [])).
    exists (JObj [("category", JStr "x")]). split.
    + apply elem_of_app. right. apply elem_of_app. left.
      by apply list_elem_of_singleton.
    + by intros [? [=]].
  - apply (proj2 (merge_step_faults example_current example_new_bench
                    example_new_bench1)).
    by_computation.
Defined.

(** ** The loader *)

Lemma load_failures_caught :
  Forall (λ c, is_Exception c = true) load_failures.
Proof. repeat constructor. Qed.

(** C6: for every file name the loader returns, whatever fails with an
    exception of class [Exception], as a missing file, an I/O error and
    invalid JSON do.  When the file can be read and its text parsed, the
    loader returns the document that parsing the text of the file gives,
    and prints nothing.  When the file cannot be read, or its text cannot
    be parsed, it prints one text that names the file and the error, and
    returns the empty list. *)
Theorem load_json_file_fails_soft (w : world) (filename : string) :
  (∀ e, fs_open w filename = inl e → is_Exception (exn_class_of e) = true) →
  (∀ text e, fs_open w filename = inr text → json_loads w text = inl e →
             is_Exception (exn_class_of e) = true) →
  ∃ doc,
    outcome (load_json_file w filename) = Ok doc ∧
    match fs_open w filename with
    | inr text =>
        match json_loads w text with
        | inr parsed =>
            doc = parsed ∧ stdout (load_json_file w filename) = []
        | inl e =>
            doc = JArr [] ∧
            stdout (load_json_file w filename) =
              ["Error loading " +:+ filename +:+ ": " +:+ exn_str e]
        end
    | inl e =>
        doc = JArr [] ∧
        stdout (load_json_file w filename) =
          ["Error loading " +:+ filename +:+ ": " +:+ exn_str e]
    end.
Proof.
  intros Hopen Hparse. unfold load_json_file, open_and_load.
  destruct (fs_open w filename) as [e|text].
  - rewrite (Hopen e eq_refl). by exists (JArr []).
  - destruct (json_loads w text) as [e|parsed] eqn:Hloads.
    + rewrite (Hparse text e eq_refl Hloads). by exists (JArr []).
    + by exists parsed.
Qed.

Lemma load_json_file_fails_soft_witness :
  (outcome (load_json_file shelf_world "data/benchmarks.json") =
     Ok (JArr [JNum 1; JNum 2]) ∧
   stdout (load_json_file shelf_world "data/benchmarks.json") = []) ∧
  (outcome (load_json_file shelf_world "data/new_bench.json") = Ok (JArr []) ∧
   stdout (load_json_file shelf_world "data/new_bench.json") =
     ["Error loading data/new_bench.json: " +:+
      "Expecting ',' delimiter: line 1 column 6 (char 5)"]) ∧
  (outcome (load_json_file shelf_world "data/new_bench1.json") = Ok (JArr []) ∧
   stdout (load_json_file shelf_world "data/new_bench1.json") =
     ["Error loading data/new_bench1.json: " +:+
      "[Errno 13] Permission denied: 'data/new_bench1.json'"]) ∧
  (outcome (load_json_file shelf_world "data/none.json") = Ok (JArr []) ∧
   stdout (load_json_file shelf_world "data/none.json") =
     ["Error loading data/none.json: " +:+
      "[Errno 2] No such file or directory: 'data/none.json'"]).
Proof.
  assert (∀ name e, fs_open shelf_world name = inl e →
                    is_Exception (exn_class_of e) = true) as Hopen.
  { intros name e. cbn [fs_open shelf_world].
    repeat case_decide; by intros [= <-]. }
  assert (∀ text e, json_loads shelf_world text = inl e →
                    is_Exception (exn_class_of e) = true) as Hparse.
  { intros text e. cbn [json_loads shelf_world].
    repeat case_decide; by intros [= <-]. }
  pose proof (λ name, load_json_file_fails_soft shelf_world name
                        (Hopen name) (λ text e _, Hparse text e)) as Hload.
  destruct (Hload "data/benchmarks.json") as (doc & Hdoc & -> & Hout).
  destruct (Hload "data/new_bench.json") as (doc1 & Hdoc1 & -> & Hout1).
  destruct (Hload "data/new_bench1.json") as (doc2 & Hdoc2 & -> & Hout2).
  destruct (Hload "data/none.json") as (doc3 & Hdoc3 & -> & Hout3).
  exact (conj (conj Hdoc Hout)
           (conj (conj Hdoc1 Hout1)
              (conj (conj Hdoc2 Hout2) (conj Hdoc3 Hout3)))).
Defined.

Lemma load_json_file_interrupted (w : world) (filename : string) (e : exn) :
  open_and_load w filename = inl e →
  exn_class_of e = KeyboardInterrupt →
  load_json_file w filename = ([], Raise KeyboardInterrupt).
Proof. intros He Hc. unfold load_json_file. by rewrite He, Hc. Qed.

(** ** The category tally *)

Lemma count_category_ok (categories : gmap pykey nat) (b : json) (k : pykey) :
  category_of b = Some k →
  count_category categories b =
  ([], Ok (<[k := default 0 (categories !! k) + 1]> categories)).
Proof.
  unfold category_of, count_category, get_default.
  destruct b as [| | | | |items]; try done.
  rewrite !bind_mret.
  destruct (default (JStr "unknown") (dict_get items "category"));
    cbn; try done; by intros [= <-].
Qed.

Lemma count_category_fault (categories : gmap pykey nat) (b : json) :
  category_of b = None → ∃ c, count_category categories b = ([], Raise c).
Proof.
  unfold category_of, count_category, get_default.
  destruct b as [| | | | |items]; try (by eexists).
  rewrite !bind_mret.
  destruct (default (JStr "unknown") (dict_get items "category"));
    cbn; try done; by eexists.
Qed.

Lemma total_count_commutes (z1 z2 y : nat) :
  z1 + (z2 + y) = z2 + (z1 + y).
Proof. lia. Qed.

Lemma total_count_incr (categories : gmap pykey nat) (k : pykey) :
  total_count (<[k := default 0 (categories !! k) + 1]> categories) =
  total_count categories + 1.
Proof.
  unfold total_count. destruct (categories !! k) as [n|] eqn:Hk; cbn [default].
  - rewrite <-insert_delete_eq.
    rewrite map_fold_insert_L;
      [|intros; apply total_count_commutes|apply lookup_delete_eq].
    rewrite (map_fold_delete_L _ _ k n categories);
      [unfold id; lia|intros; apply total_count_commutes|done].
  - rewrite map_fold_insert_L;
      [lia|intros; apply total_count_commutes|done].
Qed.

Lemma count_categories_from (categories : gmap pykey nat) (l : list json) :
  Forall tallyable l →
  ∃ categories',
    for_each count_category categories l = ([], Ok categories') ∧
    (∀ k, default 0 (categories' !! k) =
          default 0 (categories !! k) + length (filter (has_category k) l)) ∧
    ((∀ k n, categories !! k = Some n → 0 < n) →
     ∀ k n, categories' !! k = Some n → 0 < n) ∧
    total_count categories' = total_count categories + length l.
Proof.
  intros Hl. revert categories.
  induction Hl as [|b l [kb Hb] _ IH]; intros categories; cbn [for_each].
  { exists categories. repeat split; auto with lia. }
  rewrite (count_category_ok _ _ _ Hb), bind_silent.
  destruct (IH (<[kb := default 0 (categories !! kb) + 1]> categories))
    as (categories' & -> & Hcount & Hpos & Htotal).
  exists categories'. split; [done|]. repeat split.
  - intros k. rewrite Hcount, filter_cons.
    destruct (decide (has_category k b)) as [Hk|Hk].
    + unfold has_category in Hk. rewrite Hb in Hk. injection Hk as ->.
      rewrite lookup_insert_eq. cbn. lia.
    + rewrite lookup_insert_ne; [done|].
      intros ->. by apply Hk.
  - intros Hall. apply Hpos. intros k n.
    destruct (decide (kb = k)) as [->|Hne].
    + rewrite lookup_insert_eq. intros [= <-]. lia.
    + rewrite lookup_insert_ne by done. apply Hall.
  - rewrite Htotal, total_count_incr. cbn [length]. lia.
Qed.

(** C7: for every list of records that the tally can count (dicts whose
    category can be hashed), and so for such a merged result, the tally
    maps each category to the number of records of that category, a record
    without the field being counted under ["unknown"], it has no entry for
    a category of no record, and its counts add up to the length of the
    list. *)
Theorem category_tally (benchmarks : list json) :
  Forall tallyable benchmarks →
  ∃ categories,
    count_categories benchmarks = ([], Ok categories) ∧
    (∀ k n, categories !! k = Some n ↔
            n = length (filter (has_category k) benchmarks) ∧ 0 < n) ∧
    (∀ items, dict_get items "category" = None →
              has_category (KStr "unknown") (JObj items)) ∧
    total_count categories = length benchmarks.
Proof.
  intros Hl. unfold count_categories.
  destruct (count_categories_from ∅ benchmarks Hl)
    as (categories & Hrun & Hcount & Hpos & Htotal).
  exists categories. split; [done|]. split; [|split].
  - intros k n. specialize (Hcount k). rewrite lookup_empty in Hcount.
    cbn [default] in Hcount. split.
    + intros Hk. rewrite Hk in Hcount. cbn [default] in Hcount.
      unfold id in Hcount. split; [lia|].
      apply (Hpos (λ k' n', ltac:(by rewrite lookup_empty)) k n Hk).
    + intros [-> Hn]. destruct (categories !! k) as [n'|]; cbn in Hcount.
      * f_equal. lia.
      * lia.
  - intros items Hnone. unfold has_category, category_of, get_default.
    by rewrite Hnone.
  - rewrite Htotal. unfold total_count. by rewrite map_fold_empty.
Qed.

Lemma category_tally_witness :
  ∃ categories,
    count_categories
      [example_record 1 "x"; example_record 2 "x"; JObj [("id", JNum 3)]] =
      ([], Ok categories) ∧
    categories !! KStr "x" = Some 2 ∧
    categories !! KStr "unknown" = Some 1 ∧
    total_count categories = 3.
Proof.
  destruct (category_tally
              [example_record 1 "x"; example_record 2 "x"; JObj [("id", JNum 3)]])
    as (categories & Hrun & Hcount & _ & Htotal).
  - by_computation.
  - exists categories. split; [exact Hrun|].
    split; [|split; [|exact Htotal]]; apply Hcount; vm_compute; split;
      (reflexivity || lia).
Defined.

(** ** The notices of skipped duplicates *)

Lemma merge_step_one_loop (current new_bench new_bench1 : list json) :
  merge_step current new_bench new_bench1 =
  state_after current new_bench new_bench1
    (length (new_bench ++ new_bench1)).
Proof.
  unfold merge_step, state_after. rewrite take_ge by done.
  cbn zeta. destruct (collect_ids ([] ++ current)) as [out [ids|c]]; [|done].
  rewrite !bind_ok. by rewrite for_each_app.
Qed.

Lemma notices_well_formed (l : list json) :
  Forall well_formed l →
  Forall2 (λ r line, ∃ a, id_of r = Some a ∧ line = skipped_line a)
          l (notices l).
Proof.
  induction 1 as [|b l [a Ha] _ IH]; [constructor|].
  rewrite (notices_cons _ _ _ Ha). constructor; eauto.
Qed.

Lemma duplicate_records_Forall (P : json → Prop) (seen : gset pykey)
    (l : list json) :
  Forall P l → Forall P (duplicate_records seen l).
Proof.
  rewrite !Forall_forall. intros Hl r Hr.
  apply elem_of_select_at in Hr as (i & Hi & _).
  apply Hl, list_elem_of_lookup. eauto.
Qed.

Lemma notice_of_id (r : json) (a : atom) :
  id_of r = Some a → notice_of r = Some (skipped_line a).
Proof.
  unfold id_of, benchmark_id, getitem, notice_of, skipped_line.
  destruct r as [| | | | |items]; try done.
  destruct (dict_get items "id") as [v|]; [|done].
  rewrite bind_mret.
  destruct v as [|[]| | | |]; cbn; try done; by intros [= <-].
Qed.

Lemma notices_named (l : list json) (out : list string) :
  Forall2 (λ r line, notice_of r = Some line) l out →
  Some <$> out = notice_of <$> l.
Proof. induction 1 as [|r line l out Hr _ IH]; [done|]. cbn. by rewrite Hr, IH. Qed.

Lemma duplicate_records_count (k : pykey) (seen : gset pykey) (l : list json) :
  Forall well_formed l →
  length (filter (has_key k) (duplicate_records seen l)) =
  length (filter (has_key k) l) - (if decide (k ∈ seen) then 0 else 1).
Proof.
  intros Hl. revert seen.
  induction Hl as [|b l [a Ha] _ IH]; intros seen.
  { unfold duplicate_records. by rewrite select_at_nil. }
  assert (key_of b = Some (atom_key a)) as Hk
    by (unfold key_of; by rewrite Ha).
  assert (has_key k b ↔ atom_key a = k) as Hkey.
  { unfold has_key. rewrite Hk. split; [by intros [= ?]|by intros ->]. }
  rewrite (duplicate_records_cons _ _ _ _ Hk), filter_app, length_app, IH.
  rewrite (filter_cons _ b l).
  destruct (decide (has_key k b)) as [Hb|Hb].
  - apply Hkey in Hb as Heq. rewrite Heq.
    rewrite (decide_True (P := k ∈ {[k]} ∪ seen)) by set_solver.
    destruct (decide (k ∈ seen)).
    + rewrite filter_cons, decide_True, filter_nil by done.
      cbn [length]. lia.
    + rewrite filter_nil. cbn [length]. lia.
  - assert (atom_key a ≠ k) as Hne by (by rewrite <-Hkey).
    assert (length (filter (has_key k)
                      (if decide (atom_key a ∈ seen) then [b] else [])) = 0)
      as ->.
    { destruct (decide (atom_key a ∈ seen)); [|done].
      by rewrite filter_cons, decide_False, filter_nil. }
    destruct (decide (k ∈ seen)) as [Hin|Hin].
    + rewrite decide_True by set_solver. lia.
    + rewrite decide_False by set_solver. lia.
Qed.

(** C8, as worded, fails: when the id 1 is the id of a record of each of
    the three collections, the records of [new_bench] and of [new_bench1]
    are both skipped, and two of the texts printed name the id 1. *)
Lemma one_notice_per_skipped_id_fails :
  ¬ one_notice_per_skipped_id
      [versioned 1 "a"] [versioned 1 "b"] [versioned 1 "c"].
Proof.
  intros Hclaim.
  specialize (Hclaim (versioned 1 "b") "  - Skipped duplicate ID: 1").
  assert (skipped_records [versioned 1 "a"] [versioned 1 "b"]
            [versioned 1 "c"] = [versioned 1 "b"; versioned 1 "c"])
    as Hskipped by (vm_compute; reflexivity).
  assert (stdout (merge_step [versioned 1 "a"] [versioned 1 "b"]
                    [versioned 1 "c"]) =
          ["  - Skipped duplicate ID: 1"; "  - Skipped duplicate ID: 1"])
    as Hout by (vm_compute; reflexivity).
  rewrite Hskipped, Hout in Hclaim.
  assert (2 = 1) as Htwo; [|lia].
  apply Hclaim; [by left|]. vm_compute. reflexivity.
Qed.

(** C8, amended: whatever the inputs, the texts printed by the merge step
    are, in the order of the turns, one text for each record skipped as a
    duplicate, made of the fixed prefix and the text of the id of the
    record; an id skipped several times is named by as many texts.  On
    inputs the merge can process, the skipped records are the records of
    [new_bench] and [new_bench1] whose id is in the seen set at their
    turn; among the records of the two supplemental collections that have
    a given id all are skipped when a record of [current] has that id, and
    all but the first otherwise; and each record of the supplemental
    collections is either appended or skipped with its notice. *)
Theorem notice_per_skipped_record (current new_bench new_bench1 : list json) :
  Forall2 (λ r line, notice_of r = Some line)
          (skipped_records current new_bench new_bench1)
          (stdout (merge_step current new_bench new_bench1)) ∧
  (well_formed_inputs current new_bench new_bench1 →
   skipped_records current new_bench new_bench1 =
     duplicate_records (ids_of current) new_bench ++
     duplicate_records (ids_of (current ++ new_bench)) new_bench1 ∧
   (∀ k, length (filter (has_key k)
                   (skipped_records current new_bench new_bench1)) =
         length (filter (has_key k) (new_bench ++ new_bench1)) -
         (if decide (k ∈ ids_of current) then 0 else 1)) ∧
   ∃ st, outcome (merge_step current new_bench new_bench1) = Ok st ∧
         length (all_benchmarks st) +
         length (stdout (merge_step current new_bench new_bench1)) =
         length current + length new_bench + length new_bench1).
Proof.
  split.
  - unfold skipped_records. rewrite merge_step_one_loop.
    unfold state_after. cbn [app]. rewrite take_ge by done.
    destruct (decide (Forall well_formed current)) as [Hc|Hc].
    + rewrite (collect_ids_ok _ Hc), bind_silent, add_benchmarks_stdout.
      eapply Forall2_impl;
        [apply notices_well_formed, duplicate_records_Forall, processed_Forall|].
      intros r line (a & Ha & ->). by apply notice_of_id.
    + destruct (collect_ids_fault _ Hc) as [c ->]. constructor.
  - intros H. pose proof H as (Hc & Ha & Hb).
    assert (skipped_records current new_bench new_bench1 =
            duplicate_records (ids_of current) (new_bench ++ new_bench1))
      as Hskipped.
    { unfold skipped_records. rewrite decide_True by done.
      by rewrite processed_well_formed by (by apply Forall_app). }
    split; [|split].
    + by rewrite Hskipped, duplicate_records_app, ids_of_app.
    + intros k. rewrite Hskipped.
      apply duplicate_records_count. by apply Forall_app.
    + rewrite (merge_step_ok _ _ _ H). eexists. split; [done|].
      cbn [stdout fst all_benchmarks].
      pose proof (select_at_length_complement
        (λ i b, seen_in (seen_at_turn (ids_of current) new_bench i) b)
        new_bench) as Hlen.
      pose proof (select_at_length_complement
        (λ i b, seen_in
           (seen_at_turn (ids_of (current ++ new_bench)) new_bench1 i) b)
        new_bench1) as Hlen1.
      pose proof (Forall2_length _ _ _ (notices_well_formed _
        (duplicate_records_Forall _ (ids_of current) _ Ha))) as Hn.
      pose proof (Forall2_length _ _ _ (notices_well_formed _
        (duplicate_records_Forall _ (ids_of (current ++ new_bench)) _ Hb)))
        as Hn1.
      unfold new_records, duplicate_records in *.
      rewrite !length_app. lia.
Qed.

Lemma notice_per_skipped_record_witness :
  stdout (merge_step shared_current shared_new_bench shared_new_bench1) =
    ["  - Skipped duplicate ID: q-1"; "  - Skipped duplicate ID: 7";
     "  - Skipped duplicate ID: q-1"] ∧
  length (filter (has_key (KStr "q-1"))
            (skipped_records shared_current shared_new_bench
               shared_new_bench1)) = 2 ∧
  ∃ st,
    outcome (merge_step shared_current shared_new_bench shared_new_bench1)
      = Ok st ∧
    length (all_benchmarks st) +
    length (stdout (merge_step shared_current shared_new_bench
                      shared_new_bench1)) = 2 + 2 + 1.
Proof.
  destruct (notice_per_skipped_record shared_current shared_new_bench
              shared_new_bench1) as [Hlines Hwf].
  destruct Hwf as (_ & Hcount & st & Hst & Hlen); [by_computation|].
  split; [|split].
  - apply notices_named in Hlines.
    apply (inj (fmap Some)). rewrite Hlines. vm_compute. reflexivity.
  - rewrite Hcount. vm_compute. reflexivity.
  - exists st. split; [exact Hst|exact Hlen].
Defined.

(** ** The seen set and the ids of the accumulated result *)

Lemma merge_step_through (current new_bench new_bench1 : list json) (n : nat) :
  merge_step current new_bench new_bench1 =
  (st ← state_after current new_bench new_bench1 n;
   for_each add_benchmark st (drop n (new_bench ++ new_bench1))).
Proof.
  rewrite merge_step_one_loop. unfold state_after. cbn zeta.
  rewrite take_ge by done.
  destruct (collect_ids ([] ++ current)) as [out [ids|c]]; [|done].
  rewrite !bind_ok. cbn [fst snd].
  rewrite (for_each_turn add_benchmark _ (new_bench ++ new_bench1) n).
  destruct (for_each add_benchmark _ (take n (new_bench ++ new_bench1)))
    as [out' [st|c]]; [|done].
  repeat (rewrite !bind_ok; cbn [fst snd]). by rewrite app_assoc.
Qed.

Lemma state_after_ok (current new_bench new_bench1 : list json) (n : nat) :
  well_formed_inputs current new_bench new_bench1 →
  outcome (state_after current new_bench new_bench1 n) =
  Ok {| all_benchmarks :=
          current ++
          new_records (ids_of current) (take n (new_bench ++ new_bench1));
        existing_ids :=
          ids_of current ∪ ids_of (take n (new_bench ++ new_bench1)) |}.
Proof.
  intros (Hc & Ha & Hb). unfold state_after. cbn [app].
  rewrite (collect_ids_ok _ Hc), bind_silent.
  rewrite add_benchmarks_ok; [done|].
  apply Forall_take. by apply Forall_app.
Qed.

Lemma ids_of_new_records (seen : gset pykey) (l : list json) :
  Forall well_formed l →
  ids_of (new_records seen l) = ids_of l ∖ seen.
Proof.
  intros Hl. apply set_eq. intros k. rewrite elem_of_difference. split.
  - rewrite <-elem_of_id_list. by apply elem_of_id_list_new_records.
  - intros [Hk Hseen]. apply elem_of_ids_of.
    pose proof (filter_key_new_records k seen l Hl) as Hf.
    rewrite decide_False in Hf by done.
    destruct (first_with_id_Some _ _ Hk) as [r Hr]. rewrite Hr in Hf.
    exists r. apply and_comm, (list_elem_of_filter (has_key k)).
    rewrite Hf. by apply list_elem_of_singleton.
Qed.

Lemma ids_of_accumulated (current l : list json) :
  Forall well_formed l →
  ids_of (current ++ new_records (ids_of current) l) =
  ids_of current ∪ ids_of l.
Proof.
  intros Hl. rewrite ids_of_app, (ids_of_new_records _ _ Hl).
  apply set_eq. intros k.
  rewrite !elem_of_union, elem_of_difference.
  destruct (decide (k ∈ ids_of current)); naive_solver.
Qed.

Lemma NoDup_accumulated (current l : list json) :
  Forall well_formed l →
  NoDup (id_list current) →
  NoDup (id_list (current ++ new_records (ids_of current) l)).
Proof.
  intros Hl Hc. rewrite id_list_app. apply NoDup_app. split; [done|]. split.
  - intros k Hk Hnew. apply elem_of_id_list in Hk.
    apply (elem_of_id_list_new_records _ _ _ Hl) in Hnew as [_ Hnot]. done.
  - by apply NoDup_id_list_new_records.
Qed.

Lemma new_records_turn (seen : gset pykey) (l : list json) (n : nat) :
  new_records seen (take (S n) l) =
  new_records seen (take n l) ++
  match l !! n with
  | Some r => if decide (seen_in (seen ∪ ids_of (take n l)) r) then [] else [r]
  | None => []
  end.
Proof.
  destruct (l !! n) as [r|] eqn:Hr.
  - rewrite (take_S_r _ _ _ Hr), new_records_app. f_equal.
    unfold new_records. rewrite select_at_cons, select_at_nil, app_nil_r.
    rewrite seen_at_turn_0.
    destruct (decide (seen_in (seen ∪ ids_of (take n l)) r)) as [Hs|Hs].
    + by rewrite decide_False by (by intros ?).
    + by rewrite decide_True.
  - apply lookup_ge_None in Hr. rewrite !take_ge by lia. by rewrite app_nil_r.
Qed.

(** C9: on inputs the merge can process, if the ids of [current] are
    pairwise distinct then so are the ids of the merged output.  At every
    turn of the two loops the seen set is the set of the ids of the
    accumulated result (whose ids are distinct if those of [current] are),
    and the turn either leaves the result as it is or appends the record of
    the turn, whose id is then not among the ids of the result.  The states
    at the turns are those the merge goes through. *)
Theorem ids_stay_distinct (current new_bench new_bench1 : list json) :
  well_formed_inputs current new_bench new_bench1 →
  ∃ st,
    outcome (merge_step current new_bench new_bench1) = Ok st ∧
    (NoDup (id_list current) → NoDup (id_list (all_benchmarks st))) ∧
    ∀ n, ∃ st_n st',
      outcome (state_after current new_bench new_bench1 n) = Ok st_n ∧
      outcome (state_after current new_bench new_bench1 (S n)) = Ok st' ∧
      merge_step current new_bench new_bench1 =
        (st ← state_after current new_bench new_bench1 n;
         for_each add_benchmark st (drop n (new_bench ++ new_bench1))) ∧
      existing_ids st_n = ids_of (all_benchmarks st_n) ∧
      (NoDup (id_list current) → NoDup (id_list (all_benchmarks st_n))) ∧
      (all_benchmarks st' = all_benchmarks st_n ∨
       ∃ r, (new_bench ++ new_bench1) !! n = Some r ∧
            all_benchmarks st' = all_benchmarks st_n ++ [r] ∧
            ¬ seen_in (ids_of (all_benchmarks st_n)) r).
Proof.
  intros H. pose proof H as (Hc & Ha & Hb).
  assert (Forall well_formed (new_bench ++ new_bench1)) as Hab
    by (by apply Forall_app).
  eexists. split; [by rewrite (merge_step_ok _ _ _ H)|].
  cbn [all_benchmarks]. split.
  - intros Hnodup. rewrite ids_of_app, <-new_records_app.
    by apply NoDup_accumulated.
  - intros n. rewrite !(state_after_ok _ _ _ _ H). do 2 eexists.
    split; [done|]. split; [done|]. split; [apply merge_step_through|].
    cbn [all_benchmarks existing_ids].
    assert (Forall well_formed (take n (new_bench ++ new_bench1))) as Hn
      by (by apply Forall_take).
    split; [by rewrite ids_of_accumulated|].
    split; [intros Hnodup; by apply NoDup_accumulated|].
    rewrite new_records_turn, (ids_of_accumulated _ _ Hn).
    destruct ((new_bench ++ new_bench1) !! n) as [r|];
      [|left; by rewrite app_nil_r].
    destruct (decide (seen_in _ r)) as [Hs|Hs]; [left; by rewrite app_nil_r|].
    right. exists r. by rewrite app_assoc.
Qed.

Lemma ids_stay_distinct_witness :
  ∃ st,
    outcome (merge_step example_current example_new_bench example_new_bench1)
      = Ok st ∧
    NoDup (id_list (all_benchmarks st)) ∧
    existing_ids st = ids_of (all_benchmarks st).
Proof.
  destruct (ids_stay_distinct example_current example_new_bench
              example_new_bench1) as (st & Hst & Hnodup & Hturns);
    [by_computation|].
  exists st. split; [exact Hst|]. split.
  - apply Hnodup. by_computation.
  - destruct (Hturns 4) as (st4 & _ & Hst4 & _ & _ & Hinv & _).
    rewrite merge_step_one_loop in Hst. cbn [length app example_new_bench
      example_new_bench1] in Hst.
    rewrite Hst4 in Hst. injection Hst as <-. exact Hinv.
Defined.

(** ** Runs over hash tables *)

Lemma benchmark_id_mret (b : json) (a : atom) :
  benchmark_id b = mret a → id_of b = Some a.
Proof. unfold id_of. by intros ->. Qed.

Lemma table_of_add (t t' : list pykey) (ids : gset pykey) (k : pykey) :
  table_of t ids → table_add t k t' → table_of t' ({[k]} ∪ ids).
Proof.
  intros Ht Hadd x. rewrite (Hadd x), (Ht x), elem_of_union, elem_of_singleton.
  done.
Qed.

Lemma table_add_elements (t : list pykey) (ids : gset pykey) (k : pykey) :
  table_of t ids → table_add t k (elements ({[k]} ∪ ids)).
Proof.
  intros Ht x. rewrite elem_of_elements, elem_of_union, elem_of_singleton.
  by rewrite (Ht x).
Qed.

Lemma collects_sound (t : list pykey) (l : list json) (r : result (list pykey)) :
  collects t l r →
  ∀ ids, table_of t ids →
    match r with
    | Ok t' =>
        ∃ ids',
          for_each (λ ids b, a ← benchmark_id b; mret ({[atom_key a]} ∪ ids))
                   ids l = ([], Ok ids') ∧
          table_of t' ids'
    | Raise c =>
        for_each (λ ids b, a ← benchmark_id b; mret ({[atom_key a]} ∪ ids))
                 ids l = ([], Raise c)
    end.
Proof.
  induction 1 as [t|t b l a t' r Hb Hadd _ IH|t b l c Hb]; intros ids Ht.
  - by exists ids.
  - cbn [for_each]. rewrite Hb, !bind_mret.
    apply IH. by apply (table_of_add t).
  - cbn [for_each]. by rewrite Hb.
Qed.

Lemma loops_sound (all : list json) (t : list pykey) (l : list json)
    (r : run (list json * list pykey)) :
  loops all t l r →
  ∀ ids, table_of t ids →
    let run := for_each add_benchmark
                 {| all_benchmarks := all; existing_ids := ids |} l in
    stdout run = r.1 ∧
    match r.2 with
    | Ok (all', t') =>
        ∃ ids',
          outcome run = Ok {| all_benchmarks := all'; existing_ids := ids' |} ∧
          table_of t' ids'
    | Raise c => outcome run = Raise c
    end.
Proof.
  induction 1 as [all t|all t b l c Hb|all t b l a out r Hb Hin _ IH
                 |all t b l a t' out r Hb Hin Hadd _ IH];
    intros ids Ht; cbn zeta; cbn [for_each fst snd].
  - split; [done|]. by exists ids.
  - unfold add_benchmark. by rewrite Hb.
  - rewrite (add_benchmark_seen _ _ a) by
      (by apply benchmark_id_mret || by apply Ht).
    rewrite bind_ok. destruct (IH ids Ht) as [Hout Hr].
    cbn [fst snd] in *. unfold stdout, outcome in *. cbn [fst snd app].
    by rewrite Hout.
  - rewrite (add_benchmark_new _ _ a) by
      (by apply benchmark_id_mret || (cbn; by rewrite <-(Ht _))).
    rewrite bind_ok. cbn [app fst snd all_benchmarks existing_ids].
    destruct (IH _ (table_of_add _ _ _ _ Ht Hadd)) as [Hout Hr].
    unfold stdout, outcome in *. by cbn [fst snd] in *.
Qed.

Lemma table_of_nil : table_of [] ∅.
Proof. intros x. split; [by intros ?%elem_of_nil|by intros ?%elem_of_empty]. Qed.

Lemma collects_complete (l : list json) (t : list pykey) (ids : gset pykey) :
  table_of t ids →
  match outcome (for_each (λ ids b, a ← benchmark_id b;
                                    mret ({[atom_key a]} ∪ ids)) ids l) with
  | Ok ids' => ∃ t', collects t l (Ok t') ∧ table_of t' ids'
  | Raise c => collects t l (Raise c)
  end.
Proof.
  revert t ids. induction l as [|b l IH]; intros t ids Ht; cbn [for_each].
  - exists t. split; [constructor|done].
  - destruct (decide (well_formed b)) as [[a Ha]|Hb].
    + pose proof (benchmark_id_Some _ _ Ha) as Hid.
      rewrite Hid, !bind_mret.
      specialize (IH _ _ (table_of_add _ _ _ _ Ht
                            (table_add_elements _ _ (atom_key a) Ht))).
      destruct (outcome _) as [ids'|c].
      * destruct IH as (t' & Hrun & Ht'). exists t'. split; [|done].
        eapply collects_cons; [done|by apply table_add_elements|done].
      * eapply collects_cons; [done|by apply table_add_elements|done].
    + destruct (benchmark_id_None _ (not_well_formed _ Hb)) as [c Hc].
      rewrite Hc. by constructor.
Qed.

Lemma loops_complete (l : list json) (all : list json) (t : list pykey)
    (ids : gset pykey) :
  table_of t ids →
  let run := for_each add_benchmark
               {| all_benchmarks := all; existing_ids := ids |} l in
  match outcome run with
  | Ok st => ∃ t', loops all t l (stdout run, Ok (all_benchmarks st, t')) ∧
                   table_of t' (existing_ids st)
  | Raise c => loops all t l (stdout run, Raise c)
  end.
Proof.
  revert all t ids. induction l as [|b l IH]; intros all t ids Ht;
    cbn zeta; cbn [for_each].
  - exists t. split; [constructor|done].
  - destruct (decide (well_formed b)) as [[a Ha]|Hb].
    + pose proof (benchmark_id_Some _ _ Ha) as Hid.
      destruct (decide (atom_key a ∈ ids)) as [Hin|Hin].
      * rewrite (add_benchmark_seen _ _ a) by done. rewrite bind_ok.
        specialize (IH all t ids Ht). cbn zeta in IH.
        unfold stdout, outcome in *. cbn [fst snd app].
        destruct (for_each add_benchmark _ l) as [out [st|c]]; cbn [fst snd] in *.
        -- destruct IH as (t' & Hrun & Ht'). exists t'. split; [|done].
           apply loops_skip; [done|by apply Ht|done].
        -- apply loops_skip; [done|by apply Ht|done].
      * rewrite (add_benchmark_new _ _ a) by done. rewrite bind_ok.
        pose proof (table_add_elements _ _ (atom_key a) Ht) as Hadd.
        specialize (IH (all ++ [b]) _ _ (table_of_add _ _ _ _ Ht Hadd)).
        cbn zeta in IH. cbn [all_benchmarks existing_ids].
        unfold stdout, outcome in *. cbn [fst snd app].
        destruct (for_each add_benchmark _ l) as [out [st|c]]; cbn [fst snd] in *.
        -- destruct IH as (t' & Hrun & Ht'). exists t'. split; [|done].
           eapply loops_add; [done|by rewrite (Ht _)|done|done].
        -- eapply loops_add; [done|by rewrite (Ht _)|done|done].
    + destruct (benchmark_id_None _ (not_well_formed _ Hb)) as [c Hc].
      unfold add_benchmark. rewrite Hc. by constructor.
Qed.

Lemma merges_sound (current new_bench new_bench1 : list json)
    (r : run (list json)) :
  merges current new_bench new_bench1 r →
  r = merged current new_bench new_bench1.
Proof.
  unfold merged, merge_step, collect_ids. cbn [app].
  destruct 1 as [c Hids|t out c Hids Hfirst|t out all t' out' r Hids Hfirst Hsecond].
  - by rewrite (collects_sound _ _ _ Hids ∅ table_of_nil).
  - destruct (collects_sound _ _ _ Hids ∅ table_of_nil) as (ids & -> & Ht).
    rewrite bind_silent.
    destruct (loops_sound _ _ _ _ Hfirst ids Ht) as [Hout Hr].
    unfold stdout, outcome in *. cbn [fst snd] in *.
    destruct (for_each add_benchmark _ new_bench) as [out0 r0].
    cbn [fst snd] in *. by subst.
  - destruct (collects_sound _ _ _ Hids ∅ table_of_nil) as (ids & -> & Ht).
    rewrite bind_silent.
    destruct (loops_sound _ _ _ _ Hfirst ids Ht) as [Hout (ids' & Hr & Ht')].
    unfold stdout, outcome in *. cbn [fst snd] in *.
    destruct (for_each add_benchmark _ new_bench) as [out0 r0].
    cbn [fst snd] in *. subst. rewrite !bind_ok. cbn [fst snd].
    destruct (loops_sound _ _ _ _ Hsecond ids' Ht') as [Hout' Hr'].
    unfold stdout, outcome in *. cbn [fst snd] in *.
    destruct (for_each add_benchmark _ new_bench1) as [out1 r1].
    cbn [fst snd] in *. subst.
    destruct r as [[all' t'']|c]; cbn [shown].
    + destruct Hr' as (ids'' & -> & _). rewrite bind_ok. cbn.
      by rewrite app_nil_r.
    + by rewrite Hr'.
Qed.

Lemma merges_complete (current new_bench new_bench1 : list json) :
  merges current new_bench new_bench1 (merged current new_bench new_bench1).
Proof.
  unfold merged, merge_step, collect_ids. cbn [app].
  pose proof (collects_complete current [] ∅ table_of_nil) as Hids.
  unfold outcome in Hids.
  destruct (for_each _ ∅ current) as [out0 [ids|c]] eqn:Hrun0;
    cbn [snd] in Hids.
  - destruct Hids as (t & Hids & Ht).
    pose proof (collects_sound _ _ _ Hids ∅ table_of_nil) as (ids0 & Hrun & _).
    rewrite Hrun in Hrun0. injection Hrun0 as <- <-. rewrite bind_silent.
    pose proof (loops_complete new_bench current t ids0 Ht) as Hfirst.
    cbn zeta in Hfirst. unfold stdout, outcome in Hfirst.
    destruct (for_each add_benchmark _ new_bench) as [out [st|c]];
      cbn [fst snd] in Hfirst.
    + destruct Hfirst as (t' & Hfirst & Ht').
      rewrite !bind_ok. cbn [fst snd].
      pose proof (loops_complete new_bench1 (all_benchmarks st) t'
                    (existing_ids st) Ht') as Hsecond.
      cbn zeta in Hsecond. unfold stdout, outcome in Hsecond.
      destruct st as [all ids1]. cbn [all_benchmarks existing_ids] in *.
      destruct (for_each add_benchmark _ new_bench1) as [out' [st'|c]];
        cbn [fst snd] in Hsecond.
      * destruct Hsecond as (t'' & Hsecond & _).
        cbn [fst snd]. rewrite bind_ok. cbn. rewrite app_nil_r.
        apply (merges_second _ _ _ _ _ _ _ _ _ Hids Hfirst Hsecond).
      * cbn. apply (merges_second _ _ _ _ _ _ _ _ _ Hids Hfirst Hsecond).
    + cbn. by apply (merges_raise_first _ _ _ t).
  - pose proof (collects_sound _ _ _ Hids ∅ table_of_nil) as Hrun.
    rewrite Hrun in Hrun0. injection Hrun0 as <-. cbn.
    by apply merges_raise_ids.
Qed.

(** ** Determinism *)

(** C10: the runs of the merge over hash tables, whatever the layout of the
    tables, all print the same notices and end with the same merged list or
    the same exception: those that [merged] computes from the three
    collections.  The tally is computed from the merged list, so two runs
    on equal collections have equal merged lists, notices and tallies. *)
Theorem merge_deterministic (current new_bench new_bench1 : list json)
    (r1 r2 : run (list json)) :
  merges current new_bench new_bench1 r1 →
  merges current new_bench new_bench1 r2 →
  r1 = merged current new_bench new_bench1 ∧
  r1 = r2 ∧
  ∀ l1 l2, outcome r1 = Ok l1 → outcome r2 = Ok l2 →
           l1 = l2 ∧ count_categories l1 = count_categories l2.
Proof.
  intros H1%merges_sound H2%merges_sound. subst r1 r2.
  split; [done|]. split; [done|].
  intros l1 l2 Hl1 Hl2. rewrite Hl1 in Hl2. by injection Hl2 as <-.
Qed.

Lemma example_run_over_tables :
  merges example_current example_new_bench [] example_run.
Proof.
  assert (∀ i c, benchmark_id (example_record i c) = mret (AInt i)) as Hid
    by done.
  apply (merges_second _ _ _ [KInt 1] ["  - Skipped duplicate ID: 1"]
           [example_record 1 "x"; example_record 2 "x"] [KInt 2; KInt 1]
           [] (Ok ([example_record 1 "x"; example_record 2 "x"],
                   [KInt 2; KInt 1]))).
  - eapply collects_cons; [apply Hid| |constructor].
    intros x. rewrite elem_of_nil, list_elem_of_singleton. cbn. tauto.
  - apply (loops_skip _ _ _ _ (AInt 1) [] _ (Hid 1%Z "y")).
    { by apply list_elem_of_singleton. }
    apply (loops_add _ _ _ _ (AInt 2) [KInt 2; KInt 1] [] _ (Hid 2%Z "x")).
    + by intros [=]%list_elem_of_singleton.
    + intros x. rewrite !elem_of_cons. cbn. tauto.
    + constructor.
  - constructor.
Qed.

Lemma merge_deterministic_witness :
  merges example_current example_new_bench [] example_run ∧
  example_run = merged example_current example_new_bench [].
Proof.
  split; [exact example_run_over_tables|].
  apply (merge_deterministic example_current example_new_bench []
           example_run (merged example_current example_new_bench [])).
  - exact example_run_over_tables.
  - apply merges_complete.
Defined.

(** * Further properties of the merge *)

(** ** The exception of a merge that fails *)

Lemma fault_class_None (b : json) : fault_class b = None ↔ well_formed b.
Proof.
  rewrite well_formed_hashable_id. unfold fault_class, has_hashable_id.
  destruct b as [| | | | |items]; try (split; [done|intros []]).
  destruct (dict_get items "id") as [[]|]; split; (done || intros []).
Qed.

Lemma fault_class_Some (b : json) (c : exn_class) :
  fault_class b = Some c → benchmark_id b = raise c.
Proof.
  unfold fault_class, benchmark_id, getitem.
  destruct b as [| | | | |items]; try by intros [= <-].
  destruct (dict_get items "id") as [v|]; [|by intros [= <-]].
  rewrite bind_mret. destruct v; by intros [= <-].
Qed.

Lemma first_fault_None (l : list json) :
  first_fault l = None ↔ Forall well_formed l.
Proof.
  induction l as [|b l IH]; [done|]. cbn [first_fault].
  rewrite Forall_cons, <-IH, <-fault_class_None.
  destruct (fault_class b); naive_solver.
Qed.

Lemma first_fault_app (l1 l2 : list json) :
  first_fault (l1 ++ l2) =
  match first_fault l1 with
  | Some c => Some c
  | None => first_fault l2
  end.
Proof.
  induction l1 as [|b l1 IH]; [done|]. cbn [app first_fault].
  by destruct (fault_class b).
Qed.

Lemma add_benchmarks_first_fault (st : merge_state) (l : list json)
    (c : exn_class) :
  first_fault l = Some c →
  outcome (for_each add_benchmark st l) = Raise c.
Proof.
  revert st. induction l as [|b l IH]; intros st; [done|].
  cbn [first_fault for_each]. destruct (fault_class b) as [c'|] eqn:Hb.
  - intros [= ->]. unfold add_benchmark.
    by rewrite (fault_class_Some _ _ Hb).
  - intros Hl. apply fault_class_None in Hb as [a Ha].
    destruct (decide (atom_key a ∈ existing_ids st)) as [Hin|Hin].
    + rewrite (add_benchmark_seen _ _ _ Ha Hin), bind_ok. by apply IH.
    + rewrite (add_benchmark_new _ _ _ Ha Hin), bind_ok. by apply IH.
Qed.

Lemma collect_ids_first_fault (l : list json) (c : exn_class) :
  first_fault l = Some c → collect_ids l = ([], Raise c).
Proof.
  unfold collect_ids. generalize (∅ : gset pykey).
  induction l as [|b l IH]; intros seen; [done|].
  cbn [first_fault for_each]. destruct (fault_class b) as [c'|] eqn:Hb.
  - intros [= ->]. by rewrite (fault_class_Some _ _ Hb).
  - intros Hl. apply fault_class_None in Hb as [a Ha].
    rewrite (benchmark_id_Some _ _ Ha), !bind_mret. by apply IH.
Qed.

Lemma merge_step_raises (current new_bench new_bench1 : list json)
    (c : exn_class) :
  first_fault (current ++ new_bench ++ new_bench1) = Some c →
  outcome (merge_step current new_bench new_bench1) = Raise c.
Proof.
  intros Hfault.
  rewrite !first_fault_app in Hfault. unfold merge_step. cbn [app].
  destruct (first_fault current) as [c0|] eqn:Hc.
  { injection Hfault as ->. by rewrite (collect_ids_first_fault _ _ Hc). }
  apply first_fault_None in Hc.
  rewrite (collect_ids_ok _ Hc), bind_silent.
  destruct (first_fault new_bench) as [c1|] eqn:Ha.
  - injection Hfault as ->.
    pose proof (add_benchmarks_first_fault
      {| all_benchmarks := current; existing_ids := ids_of current |}
      _ _ Ha) as Hrun.
    unfold outcome in *.
    destruct (for_each add_benchmark _ new_bench) as [out r].
    cbn [snd] in Hrun. by subst.
  - apply first_fault_None in Ha.
    rewrite (add_benchmarks_ok _ _ Ha), bind_ok. cbn [snd].
    by apply add_benchmarks_first_fault.
Qed.

(** X1: the merge step ends normally exactly when no record of the three
    collections has a fault, and otherwise it raises the exception of the
    first record that has one, in the order [current], [new_bench],
    [new_bench1]: [KeyError] for a dict without ['id'], [TypeError] for a
    record that is no dict or whose id is a list or a dict. *)
Theorem merge_step_first_fault (current new_bench new_bench1 : list json) :
  match first_fault (current ++ new_bench ++ new_bench1) with
  | Some c => outcome (merge_step current new_bench new_bench1) = Raise c
  | None => ∃ st, outcome (merge_step current new_bench new_bench1) = Ok st
  end.
Proof.
  destruct (first_fault _) as [c|] eqn:Hfault.
  - by apply merge_step_raises.
  - apply merge_step_ok_iff, well_formed_inputs_app.
    by apply first_fault_None.
Qed.

(** ** What the merged dataset is made of *)

Lemma select_at_sublist {A} (Q : nat → A → Prop) `{∀ i x, Decision (Q i x)}
    (l : list A) :
  select_at Q l `sublist_of` l.
Proof.
  revert Q H. induction l as [|x l IH]; intros Q ?; [done|].
  rewrite select_at_cons. destruct (decide (Q 0 x)); cbn [app].
  - apply sublist_skip, IH.
  - apply sublist_cons, IH.
Qed.

(** X2: on inputs the merge can process, the merged output is obtained
    from [current ++ new_bench ++ new_bench1] by leaving records out,
    without reordering, and it has the same set of ids: no id of an input
    is lost and none is made up. *)
Theorem merged_keeps_ids (current new_bench new_bench1 : list json) :
  well_formed_inputs current new_bench new_bench1 →
  ∃ out,
    outcome (merged current new_bench new_bench1) = Ok out ∧
    out `sublist_of` (current ++ new_bench ++ new_bench1) ∧
    ids_of out = ids_of current ∪ ids_of new_bench ∪ ids_of new_bench1.
Proof.
  intros H. eexists. rewrite (merged_ok _ _ _ H). split; [done|].
  destruct H as (Hc & Ha & Hb). split.
  - apply sublist_app; [done|].
    apply sublist_app; apply select_at_sublist.
  - rewrite (ids_of_app current new_bench), <-new_records_app.
    rewrite ids_of_accumulated by (by apply Forall_app).
    by rewrite ids_of_app, (assoc_L (∪)).
Qed.

Lemma merged_keeps_ids_witness :
  ∃ out,
    outcome (merged example_current example_new_bench example_new_bench1)
      = Ok out ∧
    ids_of out = {[KInt 1; KInt 2; KInt 3]}.
Proof.
  destruct (merged_keeps_ids example_current example_new_bench
              example_new_bench1) as (out & Hout & _ & Hids);
    [by_computation|].
  exists out. split; [exact Hout|]. rewrite Hids.
  by_computation.
Defined.

(** ** Collections without shared ids *)

Lemma nothing_skipped (seen : gset pykey) (l : list json) :
  Forall well_formed l →
  duplicate_records seen l = [] ↔
  NoDup (id_list l) ∧ ∀ k, k ∈ ids_of l → k ∉ seen.
Proof.
  intros Hl. revert seen. induction Hl as [|b l [a Ha] _ IH]; intros seen.
  { unfold duplicate_records. rewrite select_at_nil. split; [|done].
    intros _. split; [constructor|]. intros k. by rewrite ids_of_nil. }
  assert (key_of b = Some (atom_key a)) as Hk by (unfold key_of; by rewrite Ha).
  rewrite (duplicate_records_cons _ _ _ _ Hk), (ids_of_cons _ _ _ Hk).
  unfold id_list. cbn [omap list_omap]. rewrite Hk. fold (id_list l).
  rewrite NoDup_cons, elem_of_id_list.
  destruct (decide (atom_key a ∈ seen)) as [Hin|Hin]; cbn [app].
  - split; [done|]. intros [_ Hnot]. destruct (Hnot (atom_key a)); [|done].
    apply elem_of_union. left. by apply elem_of_singleton.
  - rewrite IH. split.
    + intros [Hnodup Hnot]. split; [split; [|done]|].
      * intros Hka. apply (Hnot _ Hka), elem_of_union. left.
        by apply elem_of_singleton.
      * intros k [->%elem_of_singleton|Hkl]%elem_of_union; [done|].
        intros Hks. apply (Hnot _ Hkl), elem_of_union. by right.
    + intros [[Hka Hnodup] Hnot]. split; [done|].
      intros k Hkl [->%elem_of_singleton|Hks]%elem_of_union; [done|].
      apply (Hnot k); [|done]. apply elem_of_union. by right.
Qed.

Lemma new_records_all (seen : gset pykey) (l : list json) :
  Forall well_formed l →
  duplicate_records seen l = [] → new_records seen l = l.
Proof.
  intros Hl. revert seen. induction Hl as [|b l [a Ha] _ IH]; intros seen.
  { by unfold new_records. }
  assert (key_of b = Some (atom_key a)) as Hk by (unfold key_of; by rewrite Ha).
  rewrite (duplicate_records_cons _ _ _ _ Hk), (new_records_cons _ _ _ _ Hk).
  destruct (decide (atom_key a ∈ seen)); cbn [app]; [done|].
  intros Hl. by rewrite IH.
Qed.

Lemma notices_nil (l : list json) :
  Forall well_formed l → notices l = [] → l = [].
Proof.
  intros Hl Hn. apply notices_well_formed in Hl. rewrite Hn in Hl.
  by apply Forall2_nil_inv_r in Hl.
Qed.

(** X3: on inputs the merge can process, the merge step prints no notice
    exactly when the ids of the supplemental records are pairwise distinct
    and none of them is an id of [current]; the merged output is then the
    plain concatenation of the three collections. *)
Theorem merge_without_duplicates (current new_bench new_bench1 : list json) :
  well_formed_inputs current new_bench new_bench1 →
  (stdout (merge_step current new_bench new_bench1) = [] ↔
   NoDup (id_list (new_bench ++ new_bench1)) ∧
   ∀ k, k ∈ ids_of (new_bench ++ new_bench1) → k ∉ ids_of current) ∧
  (stdout (merge_step current new_bench new_bench1) = [] →
   outcome (merged current new_bench new_bench1) =
   Ok (current ++ new_bench ++ new_bench1)).
Proof.
  intros H. pose proof H as (Hc & Ha & Hb).
  assert (Forall well_formed (new_bench ++ new_bench1)) as Hab
    by (by apply Forall_app).
  assert (stdout (merge_step current new_bench new_bench1) = [] ↔
          duplicate_records (ids_of current) (new_bench ++ new_bench1) = [])
    as Hquiet.
  { rewrite (merge_step_ok _ _ _ H). cbn [stdout fst].
    rewrite duplicate_records_app, <-ids_of_app.
    unfold notices at 1 2. rewrite <-omap_app. fold (notices
      (duplicate_records (ids_of current) new_bench ++
       duplicate_records (ids_of (current ++ new_bench)) new_bench1)).
    split; [|by intros ->].
    apply notices_nil.
    apply Forall_app; split; by apply duplicate_records_Forall. }
  split.
  - by rewrite Hquiet, (nothing_skipped _ _ Hab).
  - rewrite Hquiet. intros Hnone. rewrite (merged_ok _ _ _ H). cbn [outcome snd].
    by rewrite (ids_of_app current), <-new_records_app,
      (new_records_all _ _ Hab Hnone).
Qed.

Lemma merge_without_duplicates_witness :
  outcome (merged example_current [example_record 2 "x"] [example_record 3 "y"])
  = Ok (example_current ++ [example_record 2 "x"] ++ [example_record 3 "y"]).
Proof.
  apply (merge_without_duplicates example_current [example_record 2 "x"]
           [example_record 3 "y"]).
  - by_computation.
  - vm_compute. reflexivity.
Defined.

(** ** Merging in stages *)

Lemma new_records_Forall (P : json → Prop) (seen : gset pykey) (l : list json) :
  Forall P l → Forall P (new_records seen l).
Proof.
  rewrite !Forall_forall. intros Hl r Hr.
  apply elem_of_select_at in Hr as (i & Hi & _).
  apply Hl, list_elem_of_lookup. eauto.
Qed.

Lemma merged_run (current new_bench new_bench1 : list json) :
  Forall well_formed current →
  merged current new_bench new_bench1 =
  (st ← for_each add_benchmark
          {| all_benchmarks := current; existing_ids := ids_of current |}
          (new_bench ++ new_bench1);
   mret (all_benchmarks st)).
Proof.
  intros Hc. unfold merged. rewrite merge_step_one_loop.
  unfold state_after. cbn [app]. rewrite take_ge by done.
  by rewrite (collect_ids_ok _ Hc), bind_silent.
Qed.

Lemma merged_fault_current (current new_bench new_bench1 : list json)
    (c : exn_class) :
  collect_ids current = ([], Raise c) →
  merged current new_bench new_bench1 = ([], Raise c).
Proof. intros Hrun. unfold merged, merge_step. cbn [app]. by rewrite Hrun. Qed.

(** X4: merging the three collections is merging [new_bench] into
    [current] and then [new_bench1] into what that gave, in what is
    printed, in the exception raised if one is, and in the merged list.
    It holds whatever the inputs. *)
Theorem merged_in_stages (current new_bench new_bench1 : list json) :
  merged current new_bench new_bench1 =
  (mid ← merged current new_bench []; merged mid new_bench1 []).
Proof.
  destruct (decide (Forall well_formed current)) as [Hc|Hc].
  2:{ destruct (collect_ids_fault _ Hc) as [c Hrun].
      by rewrite !(merged_fault_current _ _ _ _ Hrun). }
  rewrite !(merged_run current) by done. rewrite app_nil_r, for_each_app.
  destruct (decide (Forall well_formed new_bench)) as [Ha|Ha].
  - rewrite (add_benchmarks_ok _ _ Ha). cbn [all_benchmarks existing_ids].
    rewrite !bind_ok. cbn [fst snd all_benchmarks].
    unfold mret at 2, run_ret. cbn [fst snd]. rewrite app_nil_r.
    rewrite (bind_ok _ (current ++ new_records (ids_of current) new_bench)).
    rewrite merged_run, app_nil_r
      by (apply Forall_app; split; [done|by apply new_records_Forall]).
    rewrite (ids_of_accumulated _ _ Ha).
    destruct (for_each add_benchmark _ new_bench1) as [out [st|c]];
      cbn [fst snd]; [|done].
    rewrite !bind_ok. cbn [fst snd]. by rewrite app_assoc.
  - destruct (add_benchmarks_fault
      {| all_benchmarks := current; existing_ids := ids_of current |}
      new_bench Ha) as [c Hrun].
    unfold outcome in Hrun.
    destruct (for_each add_benchmark _ new_bench) as [out r].
    cbn [snd] in Hrun. by subst.
Qed.

(** ** Merging a second time *)

Lemma all_seen (seen : gset pykey) (l : list json) :
  Forall well_formed l → ids_of l ⊆ seen →
  new_records seen l = [] ∧ duplicate_records seen l = l.
Proof.
  intros Hl. revert seen. induction Hl as [|b l [a Ha] _ IH]; intros seen.
  { by unfold new_records, duplicate_records. }
  assert (key_of b = Some (atom_key a)) as Hk by (unfold key_of; by rewrite Ha).
  rewrite (duplicate_records_cons _ _ _ _ Hk), (new_records_cons _ _ _ _ Hk).
  rewrite (ids_of_cons _ _ _ Hk). intros Hsub.
  assert (atom_key a ∈ seen) as Hin.
  { apply Hsub, elem_of_union. left. by apply elem_of_singleton. }
  rewrite !decide_True, (seen_again _ _ Hin) by done.
  destruct (IH seen) as [-> ->]; [|done].
  intros k Hkl. apply Hsub, elem_of_union. by right.
Qed.

(** X5: on inputs the merge can process, merging the same supplemental
    collections into the merged output adds nothing: the output comes back
    as it is, and every supplemental record is skipped with its notice. *)
Theorem merged_again (current new_bench new_bench1 : list json) :
  well_formed_inputs current new_bench new_bench1 →
  ∃ out,
    outcome (merged current new_bench new_bench1) = Ok out ∧
    merged out new_bench new_bench1 =
    (notices new_bench ++ notices new_bench1, Ok out).
Proof.
  intros H. destruct (merged_keeps_ids _ _ _ H) as (out & Hout & Hsub & Hids).
  exists out. split; [done|]. pose proof H as (Hc & Ha & Hb).
  assert (Forall well_formed out) as Hwf.
  { apply well_formed_inputs_app in H. rewrite Forall_forall in *.
    intros r Hr. apply H. by eapply elem_of_sublist. }
  rewrite merged_ok by done.
  destruct (all_seen (ids_of out) new_bench Ha) as [-> ->].
  { rewrite Hids. intros k ?. apply elem_of_union. left.
    apply elem_of_union. by right. }
  destruct (all_seen (ids_of (out ++ new_bench)) new_bench1 Hb) as [-> ->].
  { rewrite ids_of_app, Hids. intros k ?. apply elem_of_union. left.
    apply elem_of_union. by right. }
  by rewrite !app_nil_r.
Qed.

Lemma merged_again_witness :
  merged [example_record 1 "x"; example_record 2 "x"; example_record 3 "x"]
         example_new_bench example_new_bench1 =
  (["  - Skipped duplicate ID: 1"; "  - Skipped duplicate ID: 2";
    "  - Skipped duplicate ID: 2"; "  - Skipped duplicate ID: 3"],
   Ok [example_record 1 "x"; example_record 2 "x"; example_record 3 "x"]).
Proof.
  destruct (merged_again example_current example_new_bench example_new_bench1)
    as (out & Hout & Hagain); [by_computation|].
  vm_compute in Hout. injection Hout as <-. exact Hagain.
Defined.

(** * Properties of the tally as a dict *)

Lemma dict_to_map_incr (a : atom) (categories : list (atom * nat)) :
  dict_to_map (dict_incr a categories) =
  <[atom_key a := default 0 (dict_to_map categories !! atom_key a) + 1]>
    (dict_to_map categories).
Proof.
  unfold dict_to_map. induction categories as [|[a' n] d IH]; [done|].
  cbn [dict_incr]. destruct (decide (atom_key a' = atom_key a)) as [Heq|Hne];
    rewrite !fmap_cons; cbn [prod_map fst snd]; rewrite !list_to_map_cons.
  - by rewrite Heq, lookup_insert_eq, insert_insert_eq.
  - rewrite IH, lookup_insert_ne by done. by apply insert_insert_ne.
Qed.

Lemma dict_keys_incr (a : atom) (categories : list (atom * nat)) :
  dict_keys (dict_incr a categories) =
  if decide (atom_key a ∈ dict_keys categories) then dict_keys categories
  else dict_keys categories ++ [atom_key a].
Proof.
  unfold dict_keys. induction categories as [|[a' n] d IH].
  { cbn. rewrite decide_False; [done|]. by intros ?%elem_of_nil. }
  cbn [dict_incr fmap list_fmap fst].
  destruct (decide (atom_key a' = atom_key a)) as [Heq|Hne].
  - cbn [fmap list_fmap fst]. rewrite decide_True; [done|].
    rewrite Heq. by left.
  - cbn [fmap list_fmap fst]. rewrite IH.
    destruct (decide (atom_key a ∈ atom_key <$> d.*1)) as [Hin|Hin].
    + rewrite decide_True; [done|]. by right.
    + rewrite decide_False; [done|].
      intros [?|?]%elem_of_cons; congruence.
Qed.

Lemma dict_incr_positive (a : atom) (categories : list (atom * nat)) :
  Forall (λ item, 0 < item.2) categories →
  Forall (λ item, 0 < item.2) (dict_incr a categories).
Proof.
  induction 1 as [|[a' n] d Hn Hd IH]; cbn [dict_incr].
  - constructor; [cbn; lia|constructor].
  - cbn [snd] in Hn.
    destruct (decide (atom_key a' = atom_key a)); constructor;
      cbn [snd]; (lia || done).
Qed.

Lemma category_fault_None (b : json) :
  category_fault b = None →
  ∃ a, (∀ d, tally_category d b = ([], Ok (dict_incr a d))) ∧
       category_of b = Some (atom_key a).
Proof.
  unfold category_fault, tally_category, category_of, get_default.
  destruct b as [| | | | |items]; try done.
  destruct (dict_get items "category") as [[]|]; try done; intros _;
    eexists; (split; [intros d; rewrite !bind_mret; reflexivity|done]).
Qed.

Lemma category_fault_Some (b : json) (c : exn_class) :
  category_fault b = Some c →
  (∀ d, tally_category d b = ([], Raise c)) ∧
  (∀ m, count_category m b = ([], Raise c)).
Proof.
  unfold category_fault, tally_category, count_category, get_default.
  destruct b as [| | | | |items]; try (by intros [= <-]).
  destruct (dict_get items "category") as [[]|]; try done;
    intros [= <-]; split; intros; by rewrite !bind_mret.
Qed.

Lemma tally_from (categories : list (atom * nat)) (l : list json) :
  match first_category_fault l with
  | Some c =>
      for_each tally_category categories l = ([], Raise c) ∧
      for_each count_category (dict_to_map categories) l = ([], Raise c)
  | None =>
      ∃ categories',
        for_each tally_category categories l = ([], Ok categories') ∧
        for_each count_category (dict_to_map categories) l =
          ([], Ok (dict_to_map categories')) ∧
        (NoDup (dict_keys categories) → NoDup (dict_keys categories')) ∧
        (Forall (λ item, 0 < item.2) categories →
         Forall (λ item, 0 < item.2) categories')
  end.
Proof.
  revert categories. induction l as [|b l IH]; intros d;
    cbn [first_category_fault for_each].
  { by exists d. }
  destruct (category_fault b) as [c|] eqn:Hb.
  - destruct (category_fault_Some _ _ Hb) as [Hd Hm]. by rewrite Hd, Hm.
  - destruct (category_fault_None _ Hb) as (a & Hd & Hcat).
    rewrite Hd, (count_category_ok _ _ _ Hcat), !bind_silent.
    rewrite <-dict_to_map_incr. specialize (IH (dict_incr a d)).
    destruct (first_category_fault l) as [c|]; [done|].
    destruct IH as (d' & Hrun & Hrun' & Hnodup & Hpos).
    exists d'. split; [done|]. split; [done|]. split.
    + intros Hd0. apply Hnodup. rewrite dict_keys_incr.
      destruct (decide _) as [|Hnew]; [done|].
      apply NoDup_app. split; [done|]. split; [|apply NoDup_singleton].
      by intros k Hk ->%list_elem_of_singleton.
    + intros Hd0. by apply Hpos, dict_incr_positive.
Qed.

(** X6: the tally kept as a Python dict, with its keys in the order of
    their insertion, is the tally as a map: the two end alike, normally or
    with the same exception, without printing, and the map is that of the
    dict.  The keys of the dict are pairwise distinct as Python compares
    them and every count is positive. *)
Theorem tally_is_count_categories (benchmarks : list json) :
  stdout (tally benchmarks) = [] ∧
  stdout (count_categories benchmarks) = [] ∧
  match outcome (tally benchmarks) with
  | Ok categories =>
      outcome (count_categories benchmarks) = Ok (dict_to_map categories) ∧
      NoDup (dict_keys categories) ∧
      Forall (λ item, 0 < item.2) categories
  | Raise c => outcome (count_categories benchmarks) = Raise c
  end.
Proof.
  unfold tally, count_categories.
  pose proof (tally_from [] benchmarks) as Hrun.
  destruct (first_category_fault benchmarks) as [c|].
  - destruct Hrun as [-> Hrun]. change (dict_to_map []) with
      (∅ : gmap pykey nat) in Hrun. by rewrite Hrun.
  - destruct Hrun as (d & -> & Hrun & Hnodup & Hpos).
    change (dict_to_map []) with (∅ : gmap pykey nat) in Hrun.
    rewrite Hrun. repeat split; [by apply Hnodup; constructor|by apply Hpos].
Qed.

Lemma category_fault_well_formed (l : list json) (c : exn_class) :
  Forall well_formed l → first_category_fault l = Some c → c = TypeError.
Proof.
  induction 1 as [|b l Hb _ IH]; [done|]. cbn [first_category_fault].
  apply well_formed_has_id_field in Hb. unfold category_fault.
  destruct b as [| | | | |items]; try done.
  destruct (dict_get items "category") as [[]|]; (done || by intros [= <-]).
Qed.

Lemma merged_well_formed (current new_bench new_bench1 out : list json) :
  outcome (merged current new_bench new_bench1) = Ok out →
  Forall well_formed out.
Proof.
  intros Hmerged.
  destruct (decide (well_formed_inputs current new_bench new_bench1))
    as [H|H].
  - rewrite (merged_ok _ _ _ H) in Hmerged. injection Hmerged as <-.
    destruct H as (Hc & Ha & Hb).
    repeat (apply Forall_app; split); [done|by apply new_records_Forall..].
  - destruct (merge_step_fault _ _ _ H) as [c' Hc']. unfold merged in *.
    unfold outcome in *.
    destruct (merge_step current new_bench new_bench1) as [out' r].
    cbn [snd] in Hc'. by subst.
Qed.

(** X7: the tally ends normally exactly when no record has a category
    fault, and otherwise raises the exception of the first record that has
    one: [AttributeError] for a value that is no dict, [TypeError] for a
    category that is a list or a dict.  After a merge that ended normally
    every record is a dict, so the tally can only raise [TypeError]. *)
Theorem tally_first_fault (benchmarks : list json) :
  match first_category_fault benchmarks with
  | Some c => tally benchmarks = ([], Raise c)
  | None => ∃ categories, tally benchmarks = ([], Ok categories)
  end ∧
  ∀ current new_bench new_bench1 c,
    outcome (merged current new_bench new_bench1) = Ok benchmarks →
    outcome (tally benchmarks) = Raise c → c = TypeError.
Proof.
  pose proof (tally_from [] benchmarks) as Hrun. unfold tally.
  pose proof (category_fault_well_formed benchmarks) as Hclass.
  destruct (first_category_fault benchmarks) as [c|].
  - destruct Hrun as [Hrun _]. split; [done|].
    intros current new_bench new_bench1 c' Hmerged. rewrite Hrun.
    intros [= <-]. apply Hclass; [|done]. by eapply merged_well_formed.
  - destruct Hrun as (d & Hd & _). split; [eauto|].
    intros current new_bench new_bench1 c' _. by rewrite Hd.
Qed.

Lemma tally_first_fault_witness :
  tally [example_record 1 "x"; JObj [("id", JNum 2); ("category", JArr [])]]
  = ([], Raise TypeError).
Proof.
  exact (proj1 (tally_first_fault
    [example_record 1 "x"; JObj [("id", JNum 2); ("category", JArr [])]])).
Defined.

(** * Properties of the sorted report *)

Lemma string_ltb_total (s t : string) :
  s ≠ t → String.ltb s t = false → String.ltb t s = true.
Proof.
  unfold String.ltb. rewrite (String.compare_antisym t s).
  destruct (String.compare s t) eqn:Hcmp; try done.
  intros Hne. by apply String.compare_eq_iff in Hcmp.
Qed.

Lemma atom_key_number (a : atom) (x : Z) :
  atom_number a = Some x → atom_key a = KInt x.
Proof. destruct a as [|[]| |]; by intros [= <-]. Qed.

(** Two items of one kind with distinct keys compare, one way or the
    other. *)
Lemma item_lt_comparable (x y : atom * nat) (kd : kind) :
  atom_key x.1 ≠ atom_key y.1 →
  kind_of x.1 = Some kd → kind_of y.1 = Some kd →
  ∃ lt : bool,
    item_lt x y = ([], Ok lt) ∧
    (if lt then item_before x y else item_before y x).
Proof.
  destruct x as [a n], y as [b m]. cbn [fst snd]. intros Hne Ha Hb.
  unfold item_lt, item_before. cbn [fst snd]. rewrite decide_False by done.
  destruct a as [|ba|za|sa], b as [|bb|zb|sb]; simplify_eq/=;
    try match goal with
    | |- context [(?u <? ?v)%Z] =>
        exists (u <? v)%Z; split; [done|];
        destruct (Z.ltb_spec u v) as [?|?]; [done|];
        assert (u ≠ v) by (intros ?; apply Hne; congruence); lia
    end.
  exists (String.ltb sa sb). split; [done|].
  destruct (String.ltb sa sb) eqn:Hlt; [done|].
  apply string_ltb_total; [|done]. intros ->. by apply Hne.
Qed.

(** Two items of different kinds, or one of them with the category [None],
    do not compare. *)
Lemma item_lt_incomparable (x y : atom * nat) :
  atom_key x.1 ≠ atom_key y.1 →
  (kind_of x.1 ≠ kind_of y.1 ∨ kind_of x.1 = None) →
  item_lt x y = ([], Raise TypeError).
Proof.
  destruct x as [a n], y as [b m]. cbn [fst snd]. intros Hne Hkind.
  unfold item_lt. cbn [fst snd]. rewrite decide_False by done.
  destruct a as [|ba|za|sa], b as [|bb|zb|sb]; try done;
    by destruct Hkind.
Qed.

Lemma insert_item_ok (x : atom * nat) (l : list (atom * nat)) (kd : kind) :
  kind_of x.1 = Some kd →
  Forall (λ y, atom_key x.1 ≠ atom_key y.1 ∧ kind_of y.1 = Some kd) l →
  Sorted item_before l →
  ∃ l',
    insert_item x l = ([], Ok l') ∧
    l' ≡ₚ x :: l ∧
    Sorted item_before l' ∧
    ∀ z, item_before z x → HdRel item_before z l → HdRel item_before z l'.
Proof.
  intros Hx Hl. induction Hl as [|y l [Hne Hy] _ IH]; intros Hsorted.
  { exists [x]. split; [done|]. split; [done|].
    split; [repeat constructor|]. intros z Hz _. by constructor. }
  cbn [insert_item].
  destruct (item_lt_comparable x y kd Hne Hx Hy) as ([] & -> & Hbefore);
    rewrite bind_silent.
  - exists (x :: y :: l). split; [done|]. split; [done|].
    split; [constructor; [done|by constructor]|].
    intros z Hz _. by constructor.
  - apply Sorted_inv in Hsorted as [Hsorted Hhd].
    destruct (IH Hsorted) as (l' & -> & Hperm & Hsorted' & Hhd').
    rewrite bind_silent. exists (y :: l'). split; [done|]. split.
    { rewrite Hperm. apply perm_swap. }
    split; [constructor; [done|by apply Hhd']|].
    intros z _ Hz. apply HdRel_inv in Hz. by constructor.
Qed.

Lemma sorted_of_kind (items : list (atom * nat)) (kd : kind) :
  NoDup (dict_keys items) → all_of_kind kd items →
  ∃ l, sorted items = ([], Ok l) ∧ l ≡ₚ items ∧ Sorted item_before l.
Proof.
  unfold dict_keys, all_of_kind.
  induction items as [|x items IH]; intros Hnodup Hkind; cbn [sorted].
  { exists []. by repeat split. }
  rewrite !fmap_cons in Hnodup. apply NoDup_cons in Hnodup as [Hx Hnodup].
  apply Forall_cons in Hkind as [Hkx Hkind].
  destruct (IH Hnodup Hkind) as (l & -> & Hperm & Hsorted).
  rewrite bind_silent.
  destruct (insert_item_ok x l kd Hkx) as (l' & -> & Hperm' & Hsorted' & _);
    [|done|].
  - rewrite Hperm. rewrite Forall_forall in *. intros y Hy. split; [|auto].
    intros Heq. apply Hx. rewrite Heq.
    apply list_elem_of_fmap. exists y.1. split; [done|].
    apply list_elem_of_fmap. by exists y.
  - exists l'. split; [done|]. split; [|done]. by rewrite Hperm', Hperm.
Qed.

Lemma sorted_one (x : atom * nat) : sorted [x] = ([], Ok [x]).
Proof. done. Qed.

Lemma sorted_sortable (items : list (atom * nat)) :
  NoDup (dict_keys items) → sortable items →
  ∃ l, sorted items = ([], Ok l) ∧ l ≡ₚ items ∧ Sorted item_before l.
Proof.
  intros Hnodup [Hshort|[Hkind|Hkind]]; [|by eapply sorted_of_kind..].
  destruct items as [|x [|y items]]; [| |cbn in Hshort; lia].
  - exists []. by repeat split.
  - exists [x]. repeat split; [done|]. by repeat constructor.
Qed.

Lemma quiet_bind {A B} (m : run A) (f : A → run B) :
  quiet m → (∀ a, quiet (f a)) → quiet (m ≫= f).
Proof.
  unfold quiet, stdout, outcome. destruct m as [out [a|c]]; cbn [fst snd].
  - intros [-> _] Hf. rewrite bind_silent. apply Hf.
  - intros [-> Hc] _. split; [done|]. intros c' [= <-]. by apply Hc.
Qed.

Lemma quiet_mret {A} (a : A) : quiet (mret a).
Proof. by split. Qed.

Lemma quiet_item_lt (x y : atom * nat) : quiet (item_lt x y).
Proof.
  unfold item_lt, atom_lt.
  destruct (decide _); [apply quiet_mret|].
  destruct x.1 as [|[]| |], y.1 as [|[]| |]; cbn;
    (apply quiet_mret || (split; [done|by intros ? [= <-]])).
Qed.

Lemma quiet_insert_item (x : atom * nat) (l : list (atom * nat)) :
  quiet (insert_item x l).
Proof.
  induction l as [|y l IH]; cbn [insert_item]; [apply quiet_mret|].
  apply quiet_bind; [apply quiet_item_lt|]. intros [|]; [apply quiet_mret|].
  apply quiet_bind; [done|]. intros. apply quiet_mret.
Qed.

Lemma quiet_sorted (items : list (atom * nat)) : quiet (sorted items).
Proof.
  induction items as [|x items IH]; cbn [sorted]; [apply quiet_mret|].
  apply quiet_bind; [done|]. intros. apply quiet_insert_item.
Qed.

Lemma sorted_Ok_sortable (items l : list (atom * nat)) :
  NoDup (dict_keys items) → outcome (sorted items) = Ok l → sortable items.
Proof.
  revert l. induction items as [|x items IH]; intros l' Hnodup.
  { intros _. left. cbn. lia. }
  pose proof Hnodup as Hnodup'. unfold dict_keys in Hnodup'.
  rewrite !fmap_cons in Hnodup'. apply NoDup_cons in Hnodup' as [Hx Hitems].
  cbn [sorted]. destruct (sorted items) as [out [l|c]] eqn:Hrun; [|done].
  specialize (IH l Hitems eq_refl).
  destruct (sorted_sortable items Hitems IH) as (l0 & Hrun0 & Hperm & _).
  rewrite Hrun in Hrun0. injection Hrun0 as -> <-. rewrite bind_silent.
  destruct l as [|y l].
  { apply Permutation_nil_l in Hperm as <-. intros _. left. cbn. lia. }
  assert (y ∈ items) as Hy by (rewrite <-Hperm; left).
  assert (atom_key x.1 ≠ atom_key y.1) as Hne.
  { intros Heq. apply Hx. rewrite Heq. apply list_elem_of_fmap.
    exists y.1. split; [done|]. apply list_elem_of_fmap. by exists y. }
  cbn [insert_item].
  destruct (decide (kind_of x.1 ≠ kind_of y.1 ∨ kind_of x.1 = None))
    as [Hkind|Hkind].
  { by rewrite (item_lt_incomparable _ _ Hne Hkind). }
  intros _.
  assert (kind_of x.1 = kind_of y.1) as Heq.
  { destruct (decide (kind_of x.1 = kind_of y.1)); [done|].
    destruct Hkind. by left. }
  destruct (kind_of x.1) as [kd|] eqn:Hkx; [|destruct Hkind; by right].
  assert (all_of_kind kd (x :: items)) as Hall.
  { constructor; [done|].
    destruct IH as [Hshort|[Hall|Hall]].
    - destruct items as [|z [|z' items]]; [by apply elem_of_nil in Hy|
        |cbn in Hshort; lia].
      apply list_elem_of_singleton in Hy as <-. by repeat constructor.
    - unfold all_of_kind in Hall. rewrite Forall_forall in Hall.
      rewrite (Hall _ Hy) in Heq. injection Heq as ->.
      by apply Forall_forall.
    - unfold all_of_kind in Hall. rewrite Forall_forall in Hall.
      rewrite (Hall _ Hy) in Heq. injection Heq as ->.
      by apply Forall_forall. }
  right. destruct kd; [by left|by right].
Qed.

(** X8: sorting the items of a dict, whose keys are pairwise distinct,
    prints nothing.  It ends normally exactly when the items can be sorted
    (at most one item, or categories that all are strings, or that all are
    numbers) and then gives the same items in ascending order of category;
    otherwise it raises [TypeError]. *)
Theorem sorted_items (items : list (atom * nat)) :
  NoDup (dict_keys items) →
  stdout (sorted items) = [] ∧
  match outcome (sorted items) with
  | Ok l => sortable items ∧ l ≡ₚ items ∧ Sorted item_before l
  | Raise c => ¬ sortable items ∧ c = TypeError
  end.
Proof.
  intros Hnodup. destruct (quiet_sorted items) as [Hout Hclass].
  split; [done|].
  destruct (outcome (sorted items)) as [l|c] eqn:Hrun.
  - pose proof (sorted_Ok_sortable _ _ Hnodup Hrun) as Hs.
    split; [done|].
    destruct (sorted_sortable _ Hnodup Hs) as (l' & Hrun' & Hperm & Hsorted).
    unfold outcome in Hrun. rewrite Hrun' in Hrun. by injection Hrun as <-.
  - split; [|by apply Hclass].
    intros Hs. destruct (sorted_sortable _ Hnodup Hs) as (l' & Hrun' & _).
    unfold outcome in Hrun. by rewrite Hrun' in Hrun.
Qed.

Lemma sorted_items_witness :
  outcome (sorted [(AStr "x", 2); (ABool true, 1)]) = Raise TypeError ∧
  ∃ l, outcome (sorted [(AStr "x", 2); (AStr "unknown", 1); (AStr "b", 4)])
       = Ok l ∧ Sorted item_before l.
Proof.
  split.
  - pose proof (sorted_items [(AStr "x", 2); (ABool true, 1)]) as [_ H].
    + by_computation.
    + destruct (outcome _) as [l|c]; [|by destruct H as [_ ->]].
      destruct H as [Hs _]. exfalso. revert Hs. by_computation.
  - pose proof (sorted_items [(AStr "x", 2); (AStr "unknown", 1);
                              (AStr "b", 4)]) as [_ H]; [by_computation|].
    destruct (outcome _) as [l|c] eqn:Hrun.
    + exists l. by destruct H as (_ & _ & H).
    + exfalso. destruct H as [Hs _]. apply Hs. by_computation.
Defined.

(** * Properties of the script *)

(** ** How the parts run *)

Lemma bind_raised {A B} (out : list string) (c : exn_class) (f : A → run B) :
  ((out, Raise c) ≫= f) = (out, Raise c).
Proof. done. Qed.

Lemma print_bind {B} (text : string) (f : unit → run B) :
  (print text ≫= f) = (text :: (f tt).1, (f tt).2).
Proof. unfold print. by rewrite bind_ok. Qed.

Lemma loaded_report_run (d1 d2 d3 : json) :
  loaded_report d1 d2 d3 =
  (report_head_until_fault d1 d2 d3,
   match collection_of d1, collection_of d2, collection_of d3 with
   | Some _, Some _, Some _ => Ok tt
   | _, _, _ => Raise TypeError
   end).
Proof.
  unfold loaded_report, report_head_until_fault, py_len.
  rewrite print_bind.
  destruct (collection_of d1) as [l1|]; [|done]. rewrite bind_mret, print_bind.
  destruct (collection_of d2) as [l2|]; [|done]. rewrite bind_mret, print_bind.
  by destruct (collection_of d3) as [l3|].
Qed.

Lemma report_of_documents_run (d1 d2 d3 : json) (l1 l2 l3 : list json) :
  collection_of d1 = Some l1 → collection_of d2 = Some l2 →
  collection_of d3 = Some l3 →
  report_of_documents d1 d2 d3 =
  (report_head l1 l2 l3 ++ (merge_and_tally l1 l2 l3).1,
   (merge_and_tally l1 l2 l3).2).
Proof.
  intros H1 H2 H3. unfold report_of_documents, py_iter.
  rewrite loaded_report_run, H1, H2, H3, bind_ok, !bind_mret.
  unfold report_head_until_fault. by rewrite H1, H2, H3.
Qed.

Lemma report_of_documents_fault (d1 d2 d3 : json) :
  collection_of d1 = None ∨ collection_of d2 = None ∨
  collection_of d3 = None →
  report_of_documents d1 d2 d3 =
  (report_head_until_fault d1 d2 d3, Raise TypeError).
Proof.
  intros Hnone. unfold report_of_documents. rewrite loaded_report_run.
  destruct (collection_of d1), (collection_of d2), (collection_of d3);
    try done; naive_solver.
Qed.

Lemma merge_report_loaded (w : world) (d1 d2 d3 : json) (errors : list string) :
  loaded w d1 d2 d3 errors →
  merge_report w =
  (errors ++ (report_of_documents d1 d2 d3).1,
   (report_of_documents d1 d2 d3).2).
Proof.
  intros (o1 & o2 & o3 & H1 & H2 & H3 & ->). unfold merge_report.
  rewrite H1, bind_ok, H2, bind_ok, H3, bind_ok. cbn [fst snd].
  by rewrite !app_assoc.
Qed.

Lemma print_each (items : list (atom * nat)) :
  for_each (λ _ item, print (category_line item)) tt items =
  (category_line <$> items, Ok tt).
Proof.
  induction items as [|x items IH]; [done|].
  cbn [for_each]. by rewrite print_bind, IH.
Qed.

Lemma tally_silent (l : list json) : stdout (tally l) = [].
Proof.
  pose proof (tally_from [] l) as Hrun. unfold tally.
  destruct (first_category_fault l); [by destruct Hrun as [-> _]|].
  by destruct Hrun as (d & -> & _).
Qed.

Lemma merge_and_tally_run (l1 l2 l3 : list json) :
  merge_and_tally l1 l2 l3 =
  match merge_step l1 l2 l3 with
  | (notes, Raise c) => (notes, Raise c)
  | (notes, Ok st) =>
      let all := all_benchmarks st in
      match outcome (tally all) with
      | Raise c => (notes ++ [merged_line (length all)], Raise c)
      | Ok categories =>
          match outcome (sorted categories) with
          | Raise c =>
              (notes ++ [merged_line (length all); distribution_heading],
               Raise c)
          | Ok items =>
              (notes ++ [merged_line (length all); distribution_heading] ++
               (category_line <$> items), Ok all)
          end
      end
  end.
Proof.
  unfold merge_and_tally.
  destruct (merge_step l1 l2 l3) as [notes [st|c]]; [|done].
  rewrite bind_ok, print_bind. cbn zeta. cbn [fst snd].
  pose proof (tally_silent (all_benchmarks st)) as Hsilent.
  unfold stdout, outcome in *.
  destruct (tally (all_benchmarks st)) as [out [categories|c]];
    cbn [fst snd] in *; subst out; [|done].
  rewrite bind_silent, print_bind. unfold print_categories.
  destruct (quiet_sorted categories) as [Hquiet _].
  unfold stdout, outcome in *.
  destruct (sorted categories) as [out [items|c]]; cbn [fst snd] in *;
    subst out; [|done].
  rewrite bind_silent, print_each, bind_ok. cbn [fst snd mret run_ret].
  by rewrite app_nil_r.
Qed.

Lemma merge_benchmarks_run (sys : system) :
  merge_benchmarks sys =
  match merge_report (inputs sys) with
  | (out, Raise c) => (Printed <$> out, Raise c)
  | (out, Ok all) =>
      match fs_dump sys output_file (JArr all) with
      | None =>
          ((Printed <$> out) ++
           [Dump output_file (JArr all) None; Printed saved_line;
            Printed (total_line (length all))], Ok all)
      | Some e =>
          ((Printed <$> out) ++ [Dump output_file (JArr all) (Some e)],
           Raise (exn_class_of e))
      end
  end.
Proof.
  unfold merge_benchmarks, say, dump.
  destruct (merge_report (inputs sys)) as [out [all|c]]; [|done].
  cbn [fst snd]. unfold mbind at 1, script_bind.
  by destruct (fs_dump sys output_file (JArr all)) as [e|].
Qed.

Lemma merged_of_merge_step (l1 l2 l3 out : list json) :
  outcome (merged l1 l2 l3) = Ok out ↔
  ∃ notes st, merge_step l1 l2 l3 = (notes, Ok st) ∧ all_benchmarks st = out.
Proof.
  unfold merged. destruct (merge_step l1 l2 l3) as [notes [st|c]].
  - rewrite bind_ok. cbn. split; [intros [= <-]; eauto|].
    by intros (? & ? & [= <- <-] & <-).
  - split; [done|]. by intros (? & ? & [=] & _).
Qed.

Lemma loaded_unique (w : world) (d1 d2 d3 d1' d2' d3' : json)
    (errors errors' : list string) :
  loaded w d1 d2 d3 errors → loaded w d1' d2' d3' errors' →
  d1 = d1' ∧ d2 = d2' ∧ d3 = d3' ∧ errors = errors'.
Proof.
  intros (o1 & o2 & o3 & H1 & H2 & H3 & ->)
         (o1' & o2' & o3' & H1' & H2' & H3' & ->).
  rewrite H1 in H1'. rewrite H2 in H2'. rewrite H3 in H3'.
  by simplify_eq.
Qed.

Lemma loaded_or_raised (w : world) :
  (∃ d1 d2 d3 errors, loaded w d1 d2 d3 errors) ∨
  (∃ c, outcome (merge_report w) = Raise c).
Proof.
  unfold merge_report, loaded.
  destruct (load_json_file w "data/benchmarks.json") as [o1 [d1|c]] eqn:H1;
    [|right; by exists c].
  destruct (load_json_file w "data/new_bench.json") as [o2 [d2|c]] eqn:H2;
    [|right; by exists c].
  destruct (load_json_file w "data/new_bench1.json") as [o3 [d3|c]] eqn:H3;
    [|right; by exists c].
  left. by exists d1, d2, d3, (o1 ++ o2 ++ o3), o1, o2, o3.
Qed.

(** The runs of lines 18-60 that end normally. *)
Lemma merge_report_Ok (w : world) (out : list json) :
  outcome (merge_report w) = Ok out ↔
  ∃ d1 d2 d3 errors l1 l2 l3 categories items,
    loaded w d1 d2 d3 errors ∧
    collection_of d1 = Some l1 ∧ collection_of d2 = Some l2 ∧
    collection_of d3 = Some l3 ∧
    outcome (merged l1 l2 l3) = Ok out ∧
    tally out = ([], Ok categories) ∧
    sorted categories = ([], Ok items) ∧
    stdout (merge_report w) = report errors l1 l2 l3 out items.
Proof.
  split.
  - intros Hok.
    destruct (loaded_or_raised w)
      as [(d1 & d2 & d3 & errors & Hloaded)|[c Hc]]; [|congruence].
    revert Hok. rewrite (merge_report_loaded _ _ _ _ _ Hloaded).
    unfold stdout, outcome. cbn [fst snd].
    destruct (collection_of d1) as [l1|] eqn:H1;
      [|by rewrite report_of_documents_fault by auto].
    destruct (collection_of d2) as [l2|] eqn:H2;
      [|by rewrite report_of_documents_fault by auto].
    destruct (collection_of d3) as [l3|] eqn:H3;
      [|by rewrite report_of_documents_fault by auto].
    rewrite (report_of_documents_run _ _ _ _ _ _ H1 H2 H3). cbn [fst snd].
    rewrite merge_and_tally_run. unfold report, stdout.
    destruct (merge_step l1 l2 l3) as [notes [st|c]] eqn:Hstep; [|done].
    cbn zeta. pose proof (tally_silent (all_benchmarks st)) as Hsilent.
    unfold stdout, outcome in *.
    destruct (tally (all_benchmarks st)) as [o [categories|c]] eqn:Htally;
      cbn [fst snd] in *; [subst o|done].
    destruct (quiet_sorted categories) as [Hquiet _].
    unfold stdout, outcome in *.
    destruct (sorted categories) as [o [items|c]] eqn:Hsorted;
      cbn [fst snd] in *; [subst o|done].
    intros [= <-].
    exists d1, d2, d3, errors, l1, l2, l3, categories, items.
    repeat split; try done.
    + apply merged_of_merge_step. eauto.
    + by rewrite Hstep.
  - intros (d1 & d2 & d3 & errors & l1 & l2 & l3 & categories & items &
            Hloaded & H1 & H2 & H3 & Hmerged & Htally & Hsorted & _).
    rewrite (merge_report_loaded _ _ _ _ _ Hloaded).
    unfold outcome. cbn [snd].
    rewrite (report_of_documents_run _ _ _ _ _ _ H1 H2 H3). cbn [snd].
    rewrite merge_and_tally_run.
    apply merged_of_merge_step in Hmerged as (notes & st & -> & <-).
    cbn zeta. unfold outcome. rewrite Htally. cbn [snd]. by rewrite Hsorted.
Qed.

Ltac prove_loaded :=
  unfold loaded; do 3 eexists;
  split; [reflexivity|]; split; [reflexivity|]; split; reflexivity.

Lemma tally_keys (l : list json) (categories : list (atom * nat)) :
  outcome (tally l) = Ok categories →
  tally l = ([], Ok categories) ∧ NoDup (dict_keys categories).
Proof.
  pose proof (tally_from [] l) as Hrun. unfold tally.
  destruct (first_category_fault l).
  - destruct Hrun as [-> _]. by intros [=].
  - destruct Hrun as (d & -> & _ & Hnodup & _). intros [= <-].
    split; [done|]. apply Hnodup. constructor.
Qed.

Lemma sorted_outcome (categories items : list (atom * nat)) :
  outcome (sorted categories) = Ok items →
  sorted categories = ([], Ok items).
Proof.
  destruct (quiet_sorted categories) as [Hquiet _].
  unfold stdout, outcome in *. destruct (sorted categories) as [o r].
  cbn [fst snd] in *. by intros ->; subst.
Qed.

Lemma dumps_printed (out : list string) : dumps (Printed <$> out) = [].
Proof. unfold dumps. by induction out. Qed.

(** ** When the script succeeds *)

(** X9: the script returns a list exactly when the three loads return
    documents that are collections (a file that cannot be read counts as
    the empty list), the merge of their records ends normally with that
    list, its tally ends normally with categories that can be sorted, and
    the output file can be written. *)
Theorem merge_benchmarks_succeeds (sys : system) (out : list json) :
  ending (merge_benchmarks sys) = Ok out ↔
  ∃ d1 d2 d3 errors l1 l2 l3 categories,
    loaded (inputs sys) d1 d2 d3 errors ∧
    collection_of d1 = Some l1 ∧ collection_of d2 = Some l2 ∧
    collection_of d3 = Some l3 ∧
    outcome (merged l1 l2 l3) = Ok out ∧
    outcome (tally out) = Ok categories ∧
    sortable categories ∧
    fs_dump sys output_file (JArr out) = None.
Proof.
  rewrite merge_benchmarks_run. unfold ending. split.
  - destruct (merge_report (inputs sys)) as [printed [all|c]] eqn:Hrun;
      [|done].
    destruct (fs_dump sys output_file (JArr all)) as [e|] eqn:Hdump; [done|].
    intros [= <-].
    assert (outcome (merge_report (inputs sys)) = Ok all) as Hok
      by (by rewrite Hrun).
    apply merge_report_Ok in Hok
      as (d1 & d2 & d3 & errors & l1 & l2 & l3 & categories & items &
          Hloaded & H1 & H2 & H3 & Hmerged & Htally & Hsorted & _).
    exists d1, d2, d3, errors, l1, l2, l3, categories.
    repeat split; try done; [by rewrite Htally|].
    eapply sorted_Ok_sortable; [|by rewrite Hsorted].
    apply (tally_keys all). by rewrite Htally.
  - intros (d1 & d2 & d3 & errors & l1 & l2 & l3 & categories &
            Hloaded & H1 & H2 & H3 & Hmerged & Htally & Hsortable & Hdump).
    apply tally_keys in Htally as [Htally Hnodup].
    destruct (sorted_sortable _ Hnodup Hsortable) as (items & Hsorted & _).
    assert (outcome (merge_report (inputs sys)) = Ok out) as Hok.
    { apply merge_report_Ok.
      exists d1, d2, d3, errors, l1, l2, l3, categories, items.
      repeat split; try done.
      rewrite (merge_report_loaded _ _ _ _ _ Hloaded). unfold stdout.
      cbn [fst]. rewrite (report_of_documents_run _ _ _ _ _ _ H1 H2 H3).
      cbn [fst]. rewrite merge_and_tally_run. unfold report, stdout.
      apply merged_of_merge_step in Hmerged as (notes & st & -> & <-).
      cbn zeta. unfold outcome. rewrite Htally. cbn [snd].
      by rewrite Hsorted. }
    unfold outcome in Hok.
    destruct (merge_report (inputs sys)) as [printed r]. cbn [snd] in Hok.
    subst r. by rewrite Hdump.
Qed.

Lemma merge_benchmarks_succeeds_witness :
  ending (merge_benchmarks (writable example_world)) = Ok [].
Proof.
  apply (merge_benchmarks_succeeds (writable example_world) []).
  exists (JArr []), (JArr []), (JArr []),
    ["Error loading data/new_bench.json: " +:+
       "[Errno 2] No such file or directory: 'data/new_bench.json'";
     "Error loading data/new_bench1.json: " +:+
       "[Errno 2] No such file or directory: 'data/new_bench1.json'"],
    [], [], [], [].
  repeat split; try done.
  - prove_loaded.
  - left. cbn. lia.
Defined.



(** ** What the script writes *)


(** ** Documents that are no collections *)



(** ** Inputs that cannot be read *)



Lemma merge_benchmarks_Ok (sys : system) (out : list json) :
  ending (merge_benchmarks sys) = Ok out →
  outcome (merge_report (inputs sys)) = Ok out.
Proof.
  rewrite merge_benchmarks_run. unfold ending, outcome.
  destruct (merge_report (inputs sys)) as [printed [all|c]]; [|done].
  by destruct (fs_dump sys output_file (JArr all)).
Qed.

Lemma code_points_nil (s : string) : code_points s = [] → s = "".
Proof.
  destruct s as [|c s]; [done|]. cbn [code_points].
  destruct s as [|c' s']; [done|].
  destruct (code_points (String c' s')) as [|p ps]; [done|].
  by destruct (is_continuation c').
Qed.

Lemma collection_of_records (d : json) (l : list json) :
  collection_of d = Some l → Forall well_formed l →
  d = JArr l ∨ (d = JStr "" ∧ l = []) ∨ (d = JObj [] ∧ l = []).
Proof.
  destruct d as [| | |s|l'|items]; try done; cbn [collection_of];
    intros [= <-] Hwf.
  - right. left. destruct (code_points s) as [|p ps] eqn:Hs.
    + by rewrite (code_points_nil _ Hs).
    + rewrite fmap_cons in Hwf. apply Forall_cons in Hwf as [[a Ha] _].
      done.
  - by left.
  - right. right. destruct items as [|[k v] items]; [done|].
    rewrite !fmap_cons in Hwf. apply Forall_cons in Hwf as [[a Ha] _].
    done.
Qed.

(** X14: when the script returns a list, each of the three documents
    loaded is a JSON array, or an empty string or an empty object, which
    go for empty collections: a string with characters or an object with
    keys is gone through as a collection of strings, on which the merge
    raises. *)
Theorem merge_benchmarks_documents (sys : system) (d1 d2 d3 : json)
    (errors : list string) (out : list json) :
  loaded (inputs sys) d1 d2 d3 errors →
  ending (merge_benchmarks sys) = Ok out →
  Forall (λ d, ∃ l, collection_of d = Some l ∧
               (d = JArr l ∨ (d = JStr "" ∧ l = []) ∨ (d = JObj [] ∧ l = [])))
         [d1; d2; d3].
Proof.
  intros Hloaded Hok%merge_benchmarks_Ok.
  apply merge_report_Ok in Hok
    as (d1' & d2' & d3' & errors' & l1 & l2 & l3 & categories & items &
        Hloaded' & H1 & H2 & H3 & Hmerged & _).
  destruct (loaded_unique _ _ _ _ _ _ _ _ _ Hloaded Hloaded')
    as (-> & -> & -> & ->).
  assert (well_formed_inputs l1 l2 l3) as (Hw1 & Hw2 & Hw3).
  { apply merge_step_ok_iff. unfold merged in Hmerged.
    destruct (merge_step l1 l2 l3) as [notes [st|c]]; [by exists st|done]. }
  repeat constructor; eexists; (split; [done|]);
    by apply collection_of_records.
Qed.

Lemma merge_benchmarks_documents_witness :
  Forall (λ d, ∃ l, collection_of d = Some l ∧
               (d = JArr l ∨ (d = JStr "" ∧ l = []) ∨ (d = JObj [] ∧ l = [])))
         [JArr []; JArr []; JArr []].
Proof.
  apply (merge_benchmarks_documents (writable example_world)
           (JArr []) (JArr []) (JArr [])
           ["Error loading data/new_bench.json: " +:+
              "[Errno 2] No such file or directory: 'data/new_bench.json'";
            "Error loading data/new_bench1.json: " +:+
              "[Errno 2] No such file or directory: 'data/new_bench1.json'"]
           []).
  - prove_loaded.
  - by vm_compute.
Defined.

(** ** Categories that cannot be sorted *)



(** ** The order of the supplemental collections *)

Lemma new_records_ext (seen seen' : gset pykey) (l : list json) :
  Forall well_formed l →
  (∀ k, k ∈ ids_of l → k ∈ seen ↔ k ∈ seen') →
  new_records seen l = new_records seen' l.
Proof.
  intros Hl. revert seen seen'.
  induction Hl as [|b l [a Ha] _ IH]; intros seen seen' Hsame; [done|].
  assert (key_of b = Some (atom_key a)) as Hk by (unfold key_of; by rewrite Ha).
  rewrite !(new_records_cons _ _ _ _ Hk).
  rewrite (ids_of_cons _ _ _ Hk) in Hsame. f_equal.
  - pose proof (Hsame (atom_key a)) as Hhead.
    repeat case_decide; try done; exfalso; set_solver.
  - apply IH. intros k Hkl. rewrite !elem_of_union.
    pose proof (Hsame k). set_solver.
Qed.

(** X16: on inputs the merge can process, when the two supplemental
    collections share no id, exchanging them changes only the order of the
    merged output: which of the two comes first matters for the ids they
    share only. *)
Theorem merged_supplements_swapped (current new_bench new_bench1 : list json) :
  well_formed_inputs current new_bench new_bench1 →
  ids_of new_bench ## ids_of new_bench1 →
  ∃ out out',
    outcome (merged current new_bench new_bench1) = Ok out ∧
    outcome (merged current new_bench1 new_bench) = Ok out' ∧
    out ≡ₚ out'.
Proof.
  intros H Hdisjoint. pose proof H as (Hc & Ha & Hb).
  assert (well_formed_inputs current new_bench1 new_bench) as H'
    by done.
  rewrite (merged_ok _ _ _ H), (merged_ok _ _ _ H'). do 2 eexists.
  split; [done|]. split; [done|]. apply Permutation_app_head.
  rewrite !ids_of_app.
  rewrite (new_records_ext (ids_of current ∪ ids_of new_bench) (ids_of current)
             new_bench1) by (done || set_solver).
  rewrite (new_records_ext (ids_of current ∪ ids_of new_bench1)
             (ids_of current) new_bench) by (done || set_solver).
  apply Permutation_app_comm.
Qed.

Lemma merged_supplements_swapped_witness :
  ∃ out out',
    outcome (merged example_current [example_record 2 "x"]
               [example_record 3 "y"]) = Ok out ∧
    outcome (merged example_current [example_record 3 "y"]
               [example_record 2 "x"]) = Ok out' ∧
    out ≡ₚ out'.
Proof.
  apply merged_supplements_swapped; by_computation.
Defined.

(** ** A load that is interrupted *)

Lemma load_json_file_cases (w : world) (name : string) :
  (∃ doc, load_json_file w name = ([], Ok doc)) ∨
  (∃ e, load_json_file w name = ([error_loading name e], Ok (JArr []))) ∨
  (∃ c, load_json_file w name = ([], Raise c) ∧ is_Exception c = false).
Proof.
  unfold load_json_file. destruct (open_and_load w name) as [e|doc].
  - destruct (is_Exception (exn_class_of e)) eqn:Hclass.
    + right. left. by exists e.
    + right. right. by exists (exn_class_of e).
  - left. by exists doc.
Qed.

(** X17: when one of the three loads raises, which it does for an
    exception that is not of class [Exception], as an interrupt from the
    keyboard is, the script raises such an exception before the texts
    about the documents loaded: all it has printed are texts of loads
    that failed, and it writes nothing. *)
Theorem merge_benchmarks_interrupted (sys : system) (name : string)
    (o : list string) (c : exn_class) :
  name ∈ input_files →
  load_json_file (inputs sys) name = (o, Raise c) →
  ∃ c' texts,
    merge_benchmarks sys = (Printed <$> texts, Raise c') ∧
    is_Exception c' = false ∧
    Forall (λ text, ∃ n e, text = error_loading n e) texts.
Proof.
  intros Hname Hraise. rewrite merge_benchmarks_run. unfold merge_report.
  assert (∀ n, (∃ doc texts, load_json_file (inputs sys) n = (texts, Ok doc) ∧
                 Forall (λ text, ∃ n e, text = error_loading n e) texts) ∨
               (∃ c, load_json_file (inputs sys) n = ([], Raise c) ∧
                     is_Exception c = false)) as Hload.
  { intros n. destruct (load_json_file_cases (inputs sys) n)
      as [[doc ->]|[[e ->]|[c' [-> Hc']]]].
    - left. by exists doc, [].
    - left. exists (JArr []), [error_loading n e]. split; [done|].
      repeat constructor. eauto.
    - right. by exists c'. }
  destruct (Hload "data/benchmarks.json")
    as [(d1 & o1 & H1 & Ho1)|(c1 & H1 & Hc1)]; rewrite H1;
    [|by exists c1, []].
  rewrite bind_ok.
  destruct (Hload "data/new_bench.json")
    as [(d2 & o2 & H2 & Ho2)|(c2 & H2 & Hc2)]; rewrite H2;
    [|exists c2, o1; by rewrite app_nil_r].
  rewrite bind_ok.
  destruct (Hload "data/new_bench1.json")
    as [(d3 & o3 & H3 & Ho3)|(c3 & H3 & Hc3)]; rewrite H3.
  - exfalso. unfold input_files in Hname.
    repeat (apply elem_of_cons in Hname as [->|Hname]; [congruence|]).
    by apply elem_of_nil in Hname.
  - exists c3, (o1 ++ o2). cbn [fst snd]. rewrite !app_nil_r.
    split; [done|]. split; [done|]. by apply Forall_app.
Qed.

Lemma merge_benchmarks_interrupted_witness :
  ∃ c' texts,
    merge_benchmarks (writable interrupted_world) = (Printed <$> texts, Raise c') ∧
    is_Exception c' = false.
Proof.
  destruct (merge_benchmarks_interrupted (writable interrupted_world)
              "data/new_bench.json" [] KeyboardInterrupt)
    as (c' & texts & Hrun & Hclass & _).
  - by_computation.
  - reflexivity.
  - by exists c', texts.
Defined.

(** ** A record the merge cannot process *)

(** X18: when the documents loaded are collections and one of their
    records has a fault, the script raises the exception of the first such
    record, as it is: it has printed the texts about the loads and the
    notices of the records skipped before that one, and it prints nothing
    more and writes nothing. *)
Theorem merge_benchmarks_record_fault (sys : system) (d1 d2 d3 : json)
    (errors : list string) (l1 l2 l3 : list json) (c : exn_class) :
  loaded (inputs sys) d1 d2 d3 errors →
  collection_of d1 = Some l1 → collection_of d2 = Some l2 →
  collection_of d3 = Some l3 →
  first_fault (l1 ++ l2 ++ l3) = Some c →
  merge_benchmarks sys =
  (Printed <$> (errors ++ report_head l1 l2 l3 ++
                stdout (merge_step l1 l2 l3)),
   Raise c).
Proof.
  intros Hloaded H1 H2 H3 Hfault%merge_step_raises.
  rewrite merge_benchmarks_run, (merge_report_loaded _ _ _ _ _ Hloaded).
  rewrite (report_of_documents_run _ _ _ _ _ _ H1 H2 H3). cbn [fst snd].
  rewrite merge_and_tally_run. unfold outcome, stdout in *.
  destruct (merge_step l1 l2 l3) as [notes r]. cbn [fst snd] in *.
  by subst r.
Qed.

Lemma merge_benchmarks_record_fault_witness :
  ending (merge_benchmarks (writable faulty_world)) = Raise KeyError ∧
  dumps (trace (merge_benchmarks (writable faulty_world))) = [].
Proof.
  rewrite (merge_benchmarks_record_fault (writable faulty_world)
             (JArr [example_record 1 "x"; JObj [("category", JStr "x")]])
             (JArr []) (JArr [])
             ["Error loading data/new_bench.json: No such file or directory";
              "Error loading data/new_bench1.json: No such file or directory"]
             [example_record 1 "x"; JObj [("category", JStr "x")]] [] []
             KeyError).
  - split; [done|]. apply dumps_printed.
  - prove_loaded.
  - done.
  - done.
  - done.
  - by vm_compute.
Defined.
